(** * go-mysql: admission control, deadlock retry, transaction lifecycle

    A shallow embedding of the resilience layer of the [mysql] package
    (client.go, transaction.go, relay, stats, errors, columns, rows) and
    the properties its specification states about it.

    Conventions of the embedding:
    - Go's [int], [int64] and [time.Duration] are [Z]; where the code does
      arithmetic on them the 64-bit wrap-around is written out ([wrap64]).
    - A Go [error] is [option goerror]; [None] is [nil].
    - A buffered channel is its queue and its capacity; an unbuffered
      channel is the state of its reader.
    - A call returns the state it leaves behind together with a [Result]:
      it returned a value, it panicked, or it is parked on a channel send.
    - Every effect the code performs on shared objects is also appended to
      a [trace], so that "how many times" and "in which order" can be
      stated. *)

From stdpp Require Import base gmap strings list fin_maps.
From Stdlib Require Import ZArith Lia.

Open Scope Z_scope.

(** ** Machine integers *)

Definition int64_min : Z := - 2 ^ 63.
Definition int64_max : Z := 2 ^ 63 - 1.

(** Two's-complement reduction of an integer to 64 bits. *)
Definition wrap64 (z : Z) : Z := (z + 2 ^ 63) mod 2 ^ 64 - 2 ^ 63.

Definition in_int64 (z : Z) : Prop := int64_min <= z <= int64_max.

(** [uint16(no)] *)
Definition uint16 (z : Z) : Z := z mod 2 ^ 16.

(** ** Errors (errors.go) *)

(** The values an [error] interface can hold here: the package's three
    sentinels (each [errors.New] yields a distinct value), the driver's
    [*mysql.MySQLError], [sql.ErrTxDone], and any other [errors.New]. *)
Inductive goerror : Type :=
| ErrQueueOverloaded
| ErrWrongReference
| ErrRollback
| MySQLError (Number : Z) (Message : string)
| ErrTxDone
| errorString (s : string).

Global Instance goerror_eq_dec : EqDecision goerror.
Proof. solve_decision. Defined.

Definition SQLErrorNumber := Z.
Definition ErrMySQLDeadlock : SQLErrorNumber := 1213.
Definition ErrMySQLDupEntry : SQLErrorNumber := 1062.
Definition ErrMySQLCoinstaint : SQLErrorNumber := 1452.

Definition IsErrorCode (err : option goerror) (no : SQLErrorNumber) : bool :=
  match err with
  | Some (MySQLError number _) => bool_decide (number = uint16 no)
  | _ => false
  end.

(** ** Results of calls *)

Inductive Result (A : Type) : Type :=
| Returned (a : A)
| Panicked
| Blocked.
Arguments Returned {A} a.
Arguments Panicked {A}.
Arguments Blocked {A}.

(** ** Channels *)

(** [make(chan T, size)] *)
Record chan (T : Type) : Type := mkChan {
  buf : list T;
  cap : nat
}.
Arguments mkChan {T} buf cap.
Arguments buf {T} c.
Arguments cap {T} c.

Definition make_chan {T} (size : nat) : chan T := mkChan [] size.

(** [select { case c <- v: default: }]: the value is queued when a slot is
    free, otherwise the [default] branch runs. *)
Definition try_send {T} (c : chan T) (v : T) : chan T * bool :=
  if bool_decide (length (buf c) < cap c)%nat
  then (mkChan (buf c ++ [v]) (cap c), true)
  else (c, false).

(** [c <- v]: parks the caller while no slot is free. *)
Definition send {T} (c : chan T) (v : T) : option (chan T) :=
  if bool_decide (length (buf c) < cap c)%nat
  then Some (mkChan (buf c ++ [v]) (cap c))
  else None.

(** [select { case <-c: default: }] *)
Definition try_recv {T} (c : chan T) : chan T * option T :=
  match buf c with
  | v :: rest => (mkChan rest (cap c), Some v)
  | [] => (c, None)
  end.

(** An unbuffered [chan error] seen from its sender: whether a reader is
    parked on it, and what has been handed to readers so far. *)
Record observer : Type := mkObserver {
  waiting : bool;
  received : list (option goerror)
}.

(** [make(chan error)] *)
Definition make_observer : observer := mkObserver false [].

(** A goroutine starts [<-c]. *)
Definition await (o : observer) : observer := mkObserver true (received o).

(** [select { case c <- err: default: }] on an unbuffered channel: the send
    goes through only when a reader is parked. *)
Definition notify (err : option goerror) (o : observer) : observer :=
  if waiting o then mkObserver false (received o ++ [err]) else o.

(** ** Config (config.go) *)

Record Config : Type := mkConfig {
  RetryOnDeadlock : bool;
  RetryOnDeadlockCount : Z;
  RetryOnDeadlockDelay : Z;
  Timeout : Z;
  MaxQueuedQueries : Z;
  MaxOpenConns : Z;
  MaxIdleConns : Z;
  ConnMaxLifetime : Z;
  SyncAfterTransaction : bool
}.

Definition Millisecond : Z := 1000000.
Definition Second : Z := 1000 * Millisecond.

Definition NewDefaultConfig : Config :=
  {| RetryOnDeadlock := true;
     RetryOnDeadlockCount := 5;
     RetryOnDeadlockDelay := Millisecond * 10;
     Timeout := Second * 10;
     MaxQueuedQueries := 10000;
     MaxOpenConns := 20;
     MaxIdleConns := 20;
     ConnMaxLifetime := Second * 60;
     SyncAfterTransaction := false |}.

(** ** Stats (stats.go) *)

Record QueryStats : Type := mkQueryStats {
  Query_ : string;
  ExecutionTime : Z;
  QueueTime : Z;
  TransactionTime : Z
}.

Global Instance QueryStats_eq_dec : EqDecision QueryStats.
Proof. solve_decision. Defined.

Record stats : Type := mkStats {
  inProgressQueries : Z;
  totalSuccessQueries : Z;
  totalFailedQueries : Z;
  sampleChan : chan QueryStats
}.

Definition newStats : stats :=
  {| inProgressQueries := 0;
     totalSuccessQueries := 0;
     totalFailedQueries := 0;
     sampleChan := make_chan 100 |}.

Definition sample (s : stats) (q : QueryStats) : stats :=
  {| inProgressQueries := inProgressQueries s;
     totalSuccessQueries := totalSuccessQueries s;
     totalFailedQueries := totalFailedQueries s;
     sampleChan := (try_send (sampleChan s) q).1 |}.

(** [atomic.AddInt64(s.inProgressQueries, delta)] *)
Definition addInProgress (delta : Z) (s : stats) : stats :=
  {| inProgressQueries := wrap64 (inProgressQueries s + delta);
     totalSuccessQueries := totalSuccessQueries s;
     totalFailedQueries := totalFailedQueries s;
     sampleChan := sampleChan s |}.

Definition addSuccess (delta : Z) (s : stats) : stats :=
  {| inProgressQueries := inProgressQueries s;
     totalSuccessQueries := wrap64 (totalSuccessQueries s + delta);
     totalFailedQueries := totalFailedQueries s;
     sampleChan := sampleChan s |}.

Definition addFailed (delta : Z) (s : stats) : stats :=
  {| inProgressQueries := inProgressQueries s;
     totalSuccessQueries := totalSuccessQueries s;
     totalFailedQueries := wrap64 (totalFailedQueries s + delta);
     sampleChan := sampleChan s |}.

(** The deferred bookkeeping every call ends with: one success or one
    failure, decided by the error variable the closure points at. *)
Definition countOutcome (err : option goerror) (s : stats) : stats :=
  match err with
  | None => addSuccess 1 s
  | Some _ => addFailed 1 s
  end.

(** ** Relay (relay.go) *)

Record relay : Type := mkRelay {
  relayChan : chan bool
}.

(** [make(chan bool, size)] for a size that is not negative, as all the
    clients built below have it; on a negative size [make] panics, which
    this definition does not cover. *)
Definition setRelaySize (size : Z) (t : relay) : relay :=
  mkRelay (make_chan (Z.to_nat size)).

(** [start]: [None] when the send parks the caller. *)
Definition start (t : relay) : option relay :=
  match send (relayChan t) true with
  | Some c => Some (mkRelay c)
  | None => None
  end.

Definition end_ (t : relay) : relay :=
  mkRelay (try_recv (relayChan t)).1.

(** What [conditionalEnd] is handed: a [*error], that is either the nil
    pointer or the address of an error variable, seen with the variable's
    current content. *)
Inductive error_ptr : Type :=
| nil_ptr
| addr_of (content : option goerror).

Definition conditionalEnd (t : relay) (err : error_ptr) : relay :=
  match err with
  | nil_ptr => t
  | addr_of _ => end_ t
  end.

(** Tickets currently held. *)
Definition held (t : relay) : nat := length (buf (relayChan t)).

(** ** Columns, rows, results (columns.go, row.go, element.go, results.go) *)

(** What the code reads of a [*sql.ColumnType]. *)
Record ColumnType : Type := mkColumnType {
  Name : string;
  ScanType : string
}.

Record Columns : Type := mkColumns {
  columnTypes : list ColumnType;
  names : option (list string);
  indexes : option (gmap string nat)
}.

Definition newColumns (cts : list ColumnType) : Columns :=
  {| columnTypes := cts; names := None; indexes := None |}.

(** [for i, column := range c.columnTypes { c.names[i] = column.Name() }] *)
Fixpoint fillNames (i : nat) (cts : list ColumnType) (ns : list string)
  : list string :=
  match cts with
  | [] => ns
  | column :: rest => fillNames (S i) rest (<[i := Name column]> ns)
  end.

Definition ColumnNames (c : Columns) : Columns * list string :=
  match names c with
  | Some ns => (c, ns)
  | None =>
      let ns := fillNames 0 (columnTypes c)
                  (replicate (length (columnTypes c)) EmptyString) in
      ({| columnTypes := columnTypes c; names := Some ns;
          indexes := indexes c |}, ns)
  end.

(** [for name, index := range c.ColumnNames() { c.indexes[index] = name }]:
    the loop variables are swapped in the source, the map goes from the
    column's name to its position. *)
Fixpoint fillIndexes (i : nat) (ns : list string) (m : gmap string nat)
  : gmap string nat :=
  match ns with
  | [] => m
  | n :: rest => fillIndexes (S i) rest (<[n := i]> m)
  end.

Definition ColumnIndex (c : Columns) (name : string)
  : Columns * (nat * option goerror) :=
  let '(c1, m) :=
    match indexes c with
    | Some m => (c, m)
    | None =>
        let '(c', ns) := ColumnNames c in
        let m := fillIndexes 0 ns ∅ in
        ({| columnTypes := columnTypes c'; names := names c';
            indexes := Some m |}, m)
    end in
  match m !! name with
  | Some index => (c1, (index, None))
  | None => (c1, (0%nat, Some (errorString "column name not found")))
  end.

Inductive ElementType : Type :=
| elementInt | elementString | elementFloat | elementTime.

(** An element keeps its kind and the [Null*] cell the driver scans into:
    [None] while the cell is not [Valid]. *)
Record Element : Type := mkElement {
  Type_ : ElementType;
  cell : option string
}.

Record Row : Type := mkRow {
  Elements : list Element;
  Columns_ : Columns
}.

Definition GetElementByName (r : Row) (name : string)
  : Row * Result (option Element) :=
  let '(c', (index, err)) := ColumnIndex (Columns_ r) name in
  let r' := {| Elements := Elements r; Columns_ := c' |} in
  match err with
  | Some _ => (r', Returned None)
  | None =>
      match Elements r !! index with
      | Some e => (r', Returned (Some e))
      | None => (r', Panicked)
      end
  end.

Definition scanKind (colType : string) : option ElementType :=
  if bool_decide (colType ∈ ["uint"; "uint8"; "uint16"; "uint32"; "uint64";
                             "int"; "int8"; "int16"; "int32"; "int64";
                             "sql.NullInt64"])
  then Some elementInt
  else if bool_decide (colType ∈ ["string"; "sql.RawBytes"])
  then Some elementString
  else if bool_decide (colType = "mysql.NullTime")
  then Some elementTime
  else if bool_decide (colType ∈ ["float32"; "float64"])
  then Some elementFloat
  else None.

Fixpoint newElements (cts : list ColumnType) : goerror + list Element :=
  match cts with
  | [] => inr []
  | column :: rest =>
      match scanKind (ScanType column) with
      | None => inl (errorString ("unhandled type" +:+ ScanType column))
      | Some k =>
          match newElements rest with
          | inl e => inl e
          | inr es => inr (mkElement k None :: es)
          end
      end
  end.

Definition newRow (c : Columns) : goerror + Row :=
  match newElements (columnTypes c) with
  | inl e => inl e
  | inr es => inr {| Elements := es; Columns_ := c |}
  end.

(** One result set of a [*sql.Rows]: its column types (or the error
    [ColumnTypes] reports) and, row by row, what [Scan] leaves in the
    cells it is given (a conversion that fails leaves its cell and the
    later ones as the driver leaves them). *)
Record ResultSet : Type := mkResultSet {
  rsColumnTypes : goerror + list ColumnType;
  rsData : list (list (option string))
}.

(** A [*sql.Rows]: the result set it stands on and those that
    [NextResultSet] will move to. *)
Record Rows : Type := mkRows {
  current : ResultSet;
  pending : list ResultSet
}.

(** [rows.Scan(pointers...)], its error dropped as the code drops it: the
    cells are written position by position, and a row whose width is not
    the number of destinations leaves the elements as they were. *)
Definition scan (es : list Element) (cells : list (option string))
  : list Element :=
  if bool_decide (length es = length cells)
  then zip_with (fun e v => mkElement (Type_ e) v) es cells
  else es.

Record Results : Type := mkResults {
  Columns__ : option Columns;
  Rows_ : list Row;
  QueryTime : Z
}.

Fixpoint scanRows (c : Columns) (data : list (list (option string)))
  (acc : list Row) : goerror + list Row :=
  match data with
  | [] => inr acc
  | cells :: rest =>
      match newRow c with
      | inl e => inl e
      | inr row =>
          scanRows c rest
            (acc ++ [{| Elements := scan (Elements row) cells;
                        Columns_ := c |}])
      end
  end.

Definition newResultsFromSqlRows (rs : ResultSet) : goerror + Results :=
  match rsColumnTypes rs with
  | inl e => inl e
  | inr cts =>
      let c := newColumns cts in
      match scanRows c (rsData rs) [] with
      | inl e => inl e
      | inr rows => inr {| Columns__ := Some c; Rows_ := rows; QueryTime := 0 |}
      end
  end.

Definition withQueryTime (res : Results) (t : Z) : Results :=
  {| Columns__ := Columns__ res; Rows_ := Rows_ res; QueryTime := t |}.

Record MultiResults : Type := mkMultiResults {
  Results_ : list Results;
  MQueryTime : Z
}.

Record Meta : Type := mkMeta {
  LastIntertID : Z;
  RowsAffected : Z;
  MetaQueryTime : Z
}.

(** A [sql.Result]. *)
Record sqlResult : Type := mkSqlResult {
  LastInsertId : Z;
  RowsAffected_ : Z
}.

Definition newMeta (r : sqlResult) : Meta :=
  {| LastIntertID := LastInsertId r; RowsAffected := RowsAffected_ r;
     MetaQueryTime := 0 |}.

(** ** Contexts *)

(** A [*Transaction]: the address of a transaction object. *)
Definition TxPtr := nat.

Inductive ctx_key : Type :=
| key_string (k : string)
| key_transactSync.

Global Instance ctx_key_eq_dec : EqDecision ctx_key.
Proof. solve_decision. Defined.

Inductive ctx_value : Type :=
| val_Transaction (t : TxPtr)
| val_transactSync (Sync : bool)
| val_other.

(** A [context.Context]: its chain of [WithValue] bindings, innermost
    first, and its deadline. *)
Record Context : Type := mkContext {
  bindings : list (ctx_key * ctx_value);
  deadline : option Z
}.

Definition Background : Context := mkContext [] None.

Fixpoint lookup_binding (k : ctx_key) (bs : list (ctx_key * ctx_value))
  : option ctx_value :=
  match bs with
  | [] => None
  | (k', v) :: rest => if decide (k' = k) then Some v else lookup_binding k rest
  end.

Definition Value (ctx : Context) (k : ctx_key) : option ctx_value :=
  lookup_binding k (bindings ctx).

Definition WithValue (ctx : Context) (k : ctx_key) (v : ctx_value) : Context :=
  mkContext ((k, v) :: bindings ctx) (deadline ctx).

Definition WithTimeout (ctx : Context) (now timeout : Z) : Context :=
  mkContext (bindings ctx)
    (match deadline ctx with
     | Some d => Some (Z.min d (now + timeout))
     | None => Some (now + timeout)
     end).

(** The type assertion of [ctx.Value("tx")] to a [*Transaction]. *)
Definition txFromCtx (ctx : Context) : option TxPtr :=
  match Value ctx (key_string "tx") with
  | Some (val_Transaction p) => Some p
  | _ => None
  end.

(** sync.go *)
Definition getSyncFromCtx (ctx : Context) : option bool :=
  match Value ctx key_transactSync with
  | Some (val_transactSync b) => Some b
  | _ => None
  end.

Definition checkIfSyncNeeded (ctx : Context) : bool :=
  match getSyncFromCtx ctx with
  | Some b => b
  | None => false
  end.

Definition WithSync (ctx : Context) : Context :=
  match getSyncFromCtx ctx with
  | Some _ => ctx
  | None => WithValue ctx key_transactSync (val_transactSync false)
  end.

(** ** The world outside the client: clock and trace *)

Inductive level : Type := Error | Warning | Debug.

Global Instance level_eq_dec : EqDecision level.
Proof. solve_decision. Defined.

Inductive event : Type :=
| EvInProgress (delta : Z)
| EvStart
| EvEnd
| EvExecContext (query : string) (deadline : option Z)
| EvQueryContext (query : string) (deadline : option Z)
| EvBeginTx
| EvRowsClose
| EvSleep (d : Z)
| EvSample (q : QueryStats)
| EvLog (l : level) (msg : string)
| EvSpanStart (operation : string)
| EvSpanFinish (operation : string) (failed : bool)
| EvTxCommit
| EvTxRollback
| EvClose (err : option goerror).

Global Instance event_eq_dec : EqDecision event.
Proof. solve_decision. Defined.

Record World : Type := mkWorld {
  now : Z;
  trace : list event;
  nextTx : TxPtr
}.

Definition emit (e : event) (w : World) : World :=
  mkWorld (now w) (trace w ++ [e]) (nextTx w).

Definition elapse (d : Z) (w : World) : World :=
  mkWorld (now w + d) (trace w) (nextTx w).

(** [time.Sleep(d)]: returns at once for [d <= 0]. *)
Definition Sleep (d : Z) (w : World) : World :=
  elapse (Z.max d 0) (emit (EvSleep d) w).

Definition log (l : level) (msg : string) (w : World) : World :=
  emit (EvLog l msg) w.

(** How often an event occurs in a trace. *)
Definition occurrences (e : event) (tr : list event) : nat :=
  length (filter (λ e', e' = e) tr).

(** ** The driver (database/sql), as an oracle *)

Inductive ExecReply : Type :=
| ExecOk (res : sqlResult)
| ExecErr (e : goerror).

Inductive QueryReply : Type :=
| QueryOk (rows : Rows)
| QueryErr (e : goerror).

(** A [*sql.Tx]: what [Commit] and [Rollback] will answer, and whether one
    of them has already run. *)
Record Tx : Type := mkTx {
  finished : bool;
  commitReply : option goerror;
  rollbackReply : option goerror;
  commitLatency : Z;
  rollbackLatency : Z
}.

Inductive BeginReply : Type :=
| BeginOk (tx : Tx)
| BeginErr (e : goerror).

(** A [*sql.DB]: the pool's [MaxOpenConnections], the number of calls it
    has served, and what it answers to its n-th call and after how long. *)
Record DB : Type := mkDB {
  MaxOpenConnections : Z;
  calls : nat;
  latency : nat → Z;
  execReply : nat → ExecReply;
  queryReply : nat → QueryReply;
  beginReply : nat → BeginReply
}.

Definition served (d : DB) : DB :=
  mkDB (MaxOpenConnections d) (S (calls d)) (latency d)
       (execReply d) (queryReply d) (beginReply d).

Definition ExecContext (d : DB) (ctx : Context) (query : string) (w : World)
  : DB * World * ExecReply :=
  (served d,
   elapse (latency d (calls d)) (emit (EvExecContext query (deadline ctx)) w),
   execReply d (calls d)).

Definition QueryContext (d : DB) (ctx : Context) (query : string) (w : World)
  : DB * World * QueryReply :=
  (served d,
   elapse (latency d (calls d)) (emit (EvQueryContext query (deadline ctx)) w),
   queryReply d (calls d)).

Definition BeginTx (d : DB) (w : World) : DB * World * BeginReply :=
  (served d, elapse (latency d (calls d)) (emit EvBeginTx w),
   beginReply d (calls d)).

Definition txCommit (tx : Tx) (w : World) : Tx * World * option goerror :=
  if finished tx then (tx, emit EvTxCommit w, Some ErrTxDone)
  else (mkTx true (commitReply tx) (rollbackReply tx)
             (commitLatency tx) (rollbackLatency tx),
        elapse (commitLatency tx) (emit EvTxCommit w), commitReply tx).

Definition txRollback (tx : Tx) (w : World) : Tx * World * option goerror :=
  if finished tx then (tx, emit EvTxRollback w, Some ErrTxDone)
  else (mkTx true (commitReply tx) (rollbackReply tx)
             (commitLatency tx) (rollbackLatency tx),
        elapse (rollbackLatency tx) (emit EvTxRollback w), rollbackReply tx).

(** ** Client (client.go) *)

Local Unset Elimination Schemes.
Inductive Client : Type := mkClient {
  db : DB;
  replica : option Client;
  config : Config;
  s : stats;
  r : relay
}.
Local Set Elimination Schemes.

Definition with_s (c : Client) (s' : stats) : Client :=
  mkClient (db c) (replica c) (config c) s' (r c).
Definition with_r (c : Client) (r' : relay) : Client :=
  mkClient (db c) (replica c) (config c) (s c) r'.
Definition with_db (c : Client) (d : DB) : Client :=
  mkClient d (replica c) (config c) (s c) (r c).

Definition SetReplica (c : Client) (replica : Client) : Client :=
  mkClient (db c) (Some replica) (config c) (s c) (r c).

(** [db.SetMaxOpenConns(n)]: a negative limit is stored as 0. *)
Definition SetMaxOpenConns (d : DB) (n : Z) : DB :=
  mkDB (Z.max n 0) (calls d) (latency d)
       (execReply d) (queryReply d) (beginReply d).

Definition SetConfig (c : Client) (cfg : Config) : Client :=
  mkClient (SetMaxOpenConns (db c) (MaxOpenConns cfg)) (replica c) cfg (s c)
           (setRelaySize (wrap64 (MaxOpenConns cfg * 10)) (r c)).

Definition NewClient (d : DB) : Client :=
  SetConfig (mkClient d None NewDefaultConfig newStats (mkRelay (make_chan 0)))
            NewDefaultConfig.

Definition limitReached (c : Client) (w : World)
  : Client * World * option goerror :=
  let c1 := with_s c (addInProgress 1 (s c)) in
  let w1 := emit (EvInProgress 1) w in
  if wrap64 (inProgressQueries (s c1) - MaxOpenConnections (db c1))
     >? MaxQueuedQueries (config c1)
  then (c1, w1, Some ErrQueueOverloaded)
  else (c1, w1, None).

(** The closure [Exec], [Query] and [MultiQuery] defer first, so that it
    runs last on every way out: it reads the error variable it was given
    the address of. *)
Definition deferred (err : option goerror) (query : string)
  (c : Client) (w : World) : Client * World :=
  let c1 := with_s c (countOutcome err (addInProgress (-1) (s c))) in
  let w1 := emit (EvInProgress (-1)) w in
  match err with
  | None => (c1, w1)
  | Some _ => (c1, log Error query w1)
  end.

(** The number of passes the retry loop is set up for. *)
Definition attempts (cfg : Config) : Z :=
  if RetryOnDeadlock cfg then wrap64 (1 + RetryOnDeadlockCount cfg) else 1.

(** [if c.config.Timeout > 0 { ctx, cancel = context.WithTimeout(...) }] *)
Definition withConfigTimeout (cfg : Config) (ctx : Context) (w : World)
  : Context :=
  if Timeout cfg >? 0 then WithTimeout ctx (now w) (Timeout cfg) else ctx.

Definition call (procedure : string) (argsCount : nat) : string :=
  "CALL " +:+ procedure +:+ "(" +:+
  String.concat ", " (replicate argsCount "?") +:+ ");".

(** What the calls hand back: Go's pair of a pointer and an error. *)
Definition reply (A : Type) : Type := Result (option A * option goerror).

(** *** Exec *)

(** [for ; i > 0; i-- { result, err = ExecContext(...); if deadlock
    { Warning; Sleep; continue }; break }], [n] passes left. *)
Fixpoint execLoop (n : nat) (cfg : Config) (ctx : Context) (query : string)
  (d : DB) (w : World) (result : option sqlResult) (err : option goerror)
  : DB * World * option sqlResult * option goerror :=
  match n with
  | O => (d, w, result, err)
  | S n' =>
      let '(d1, w1, rep) := ExecContext d ctx query w in
      let '(result1, err1) :=
        match rep with
        | ExecOk res => (Some res, None)
        | ExecErr e => (None, Some e)
        end in
      if IsErrorCode err1 ErrMySQLDeadlock
      then execLoop n' cfg ctx query d1
             (Sleep (RetryOnDeadlockDelay cfg) (log Warning "deadlock" w1))
             result1 err1
      else (d1, w1, result1, err1)
  end.

Definition Exec (c : Client) (ctx : Context) (query : string) (w : World)
  : Client * World * reply Meta :=
  let '(c1, w1, lim) := limitReached c w in
  match lim with
  | Some e =>
      let '(c2, w2) := deferred (Some e) query c1 w1 in
      (c2, w2, Returned (None, Some e))
  | None =>
      let i := attempts (config c1) in
      let ctx1 := withConfigTimeout (config c1) ctx w1 in
      match start (r c1) with
      | None => (c1, w1, Blocked)
      | Some r1 =>
          let c2 := with_r c1 r1 in
          let w2 := emit EvStart w1 in
          let queueTime := 0 in
          let started := now w2 in
          let '(d3, w3, result, err) :=
            execLoop (Z.to_nat i) (config c2) ctx1 query (db c2) w2 None None in
          let queryTime := now w3 - started in
          let q := mkQueryStats query queryTime queueTime 0 in
          let c3 := with_s (with_db c2 d3) (sample (s c2) q) in
          let w4 := emit (EvSample q) w3 in
          (* the ways out; on each: r.end(), then the deferred closure *)
          let leave (w : World) (res : reply Meta) :=
            let c4 := with_r c3 (end_ (r c3)) in
            let '(c5, w5) := deferred err query c4 (emit EvEnd w) in
            (c5, w5, res) in
          match err, result with
          | Some e, _ => leave w4 (Returned (None, Some e))
          | None, None => leave w4 Panicked
          | None, Some res =>
              let meta := mkMeta (LastIntertID (newMeta res))
                                 (RowsAffected (newMeta res)) queryTime in
              leave (log Debug query w4) (Returned (Some meta, None))
          end
      end
  end.

(** *** Query *)

Fixpoint queryLoop (n : nat) (cfg : Config) (ctx : Context) (query : string)
  (d : DB) (w : World) (rows : option Rows) (err : option goerror)
  : DB * World * option Rows * option goerror :=
  match n with
  | O => (d, w, rows, err)
  | S n' =>
      let '(d1, w1, rep) := QueryContext d ctx query w in
      let '(rows1, err1) :=
        match rep with
        | QueryOk rs => (Some rs, None)
        | QueryErr e => (None, Some e)
        end in
      if IsErrorCode err1 ErrMySQLDeadlock
      then queryLoop n' cfg ctx query d1
             (Sleep (RetryOnDeadlockDelay cfg) w1) rows1 err1
      else (d1, w1, rows1, err1)
  end.

(** [Query] on a client without replica. *)
Definition queryOnPrimary (c : Client) (ctx : Context) (query : string)
  (w : World) : Client * World * reply Results :=
  let '(c1, w1, lim) := limitReached c w in
  match lim with
  | Some e =>
      let '(c2, w2) := deferred (Some e) query c1 w1 in
      (c2, w2, Returned (None, Some e))
  | None =>
      let i := attempts (config c1) in
      let ctx1 := withConfigTimeout (config c1) ctx w1 in
      match start (r c1) with
      | None => (c1, w1, Blocked)
      | Some r1 =>
          let c2 := with_r c1 r1 in
          let w2 := emit EvStart w1 in
          let queueTime := 0 in
          let started := now w2 in
          let sync := checkIfSyncNeeded ctx1 in
          let '(d2, w2') :=
            if sync
            then let '(d, w, _) :=
                   ExecContext (db c2) ctx1 "SET SESSION wsrep_sync_wait=1" w2
                 in (d, w)
            else (db c2, w2) in
          let '(d3, w3, rows, err) :=
            queryLoop (Z.to_nat i) (config c2) ctx1 query d2 w2' None None in
          let queryTime := now w3 - started in
          let q := mkQueryStats query queryTime queueTime 0 in
          let c3 := with_s (with_db c2 d3) (sample (s c2) q) in
          let w4 := emit (EvSample q) w3 in
          (* the ways out; on each, last deferred first: rows.Close() when
             it was deferred, the session reset when it was deferred,
             r.end(), then the closure with the error variable's content *)
          let leave (closeRows : bool) (err : option goerror) (w : World)
                    (res : reply Results) :=
            let w5 := if closeRows then emit EvRowsClose w else w in
            let '(d6, w6) :=
              if sync
              then let '(d, w, _) :=
                     ExecContext (db c3) ctx1 "SET SESSION wsrep_sync_wait=0" w5
                   in (d, w)
              else (db c3, w5) in
            let c7 := with_r (with_db c3 d6) (end_ (r c3)) in
            let '(c8, w8) := deferred err query c7 (emit EvEnd w6) in
            (c8, w8, res) in
          match err, rows with
          | Some e, _ => leave false err w4 (Returned (None, Some e))
          | None, None => leave true err w4 Panicked
          | None, Some rs =>
              match newResultsFromSqlRows (current rs) with
              | inl e => leave true (Some e) w4 (Returned (None, Some e))
              | inr results =>
                  leave true None (log Debug query w4)
                    (Returned (Some (withQueryTime results queryTime), None))
              end
          end
      end
  end.

(** [if c.replica != nil { return c.replica.Query(...) }] *)
Fixpoint Query (c : Client) (ctx : Context) (query : string) (w : World)
  : Client * World * reply Results :=
  match c with
  | mkClient d (Some rc) cfg st rl =>
      let '(rc', w', res) := Query rc ctx query w in
      (mkClient d (Some rc') cfg st rl, w', res)
  | mkClient d None cfg st rl =>
      queryOnPrimary (mkClient d None cfg st rl) ctx query w
  end.

Definition Call (c : Client) (ctx : Context) (procedure : string)
  (args : list string) (w : World) : Client * World * reply Results :=
  Query c ctx (call procedure (length args)) w.

(** *** MultiQuery *)

(** [for { results, err := newResultsFromSqlRows(rows); ...;
    if rows.NextResultSet() == false { break } }] *)
Fixpoint drain (cur : ResultSet) (rest : list ResultSet) (queryTime : Z)
  (acc : list Results) {struct rest} : goerror + list Results :=
  match newResultsFromSqlRows cur with
  | inl e => inl e
  | inr results =>
      let acc' := acc ++ [withQueryTime results queryTime] in
      match rest with
      | [] => inr acc'
      | next :: rest' => drain next rest' queryTime acc'
      end
  end.

Definition MultiQuery (c : Client) (ctx : Context) (query : string) (w : World)
  : Client * World * reply MultiResults :=
  let '(c1, w1, lim) := limitReached c w in
  match lim with
  | Some e =>
      let '(c2, w2) := deferred (Some e) query c1 w1 in
      (c2, w2, Returned (None, Some e))
  | None =>
      let i := attempts (config c1) in
      let ctx1 := withConfigTimeout (config c1) ctx w1 in
      match start (r c1) with
      | None => (c1, w1, Blocked)
      | Some r1 =>
          let c2 := with_r c1 r1 in
          let w2 := emit EvStart w1 in
          let queueTime := 0 in
          let started := now w2 in
          let '(d3, w3, rows, err) :=
            queryLoop (Z.to_nat i) (config c2) ctx1 query (db c2) w2 None None in
          let queryTime := now w3 - started in
          let q := mkQueryStats query queryTime queueTime 0 in
          let c3 := with_s (with_db c2 d3) (sample (s c2) q) in
          let w4 := emit (EvSample q) w3 in
          (* the error variable the closure reads is the function's own:
             the one assigned inside the draining loop is a new variable *)
          let leave (closeRows : bool) (w : World) (res : reply MultiResults) :=
            let w5 := if closeRows then emit EvRowsClose w else w in
            let c6 := with_r c3 (end_ (r c3)) in
            let '(c7, w7) := deferred err query c6 (emit EvEnd w5) in
            (c7, w7, res) in
          match err, rows with
          | Some e, _ => leave false w4 (Returned (None, Some e))
          | None, None => leave true w4 Panicked
          | None, Some rs =>
              match drain (current rs) (pending rs) queryTime [] with
              | inl e => leave true w4 (Returned (None, Some e))
              | inr all =>
                  leave true (log Debug query w4)
                    (Returned (Some (mkMultiResults all queryTime), None))
              end
          end
      end
  end.

Definition MultiCall (c : Client) (ctx : Context) (procedure : string)
  (args : list string) (w : World) : Client * World * reply MultiResults :=
  MultiQuery c ctx (call procedure (length args)) w.

(** ** Transaction (transaction.go) *)

(** A transaction object. [self] is its address, what a [*Transaction]
    pointing at it holds. Its fields [s] and [r] are the pointers
    [newTransaction] was given, the [s] and [r] of the client whose [Begin]
    opened it: the methods below take that client for the two pointees. *)
Record Transaction : Type := mkTransaction {
  self : TxPtr;
  tx : Tx;
  tconfig : Config;
  done : list observer;
  startedAt : Z
}.

Definition newTransaction (p : TxPtr) (tx : Tx) (cfg : Config) (w : World)
  : Transaction :=
  mkTransaction p tx cfg [] (now w).

Definition with_done (t : Transaction) (ds : list observer) : Transaction :=
  mkTransaction (self t) (tx t) (tconfig t) ds (startedAt t).
Definition with_tx (t : Transaction) (tx' : Tx) : Transaction :=
  mkTransaction (self t) tx' (tconfig t) (done t) (startedAt t).

(** [Done]: the channel is returned as its position in [t.done]. *)
Definition Done (t : Transaction) : Transaction * nat :=
  (with_done t (done t ++ [make_observer]), length (done t)).

(** The reader of the [i]-th registered channel starts receiving. *)
Definition awaitDone (i : nat) (t : Transaction) : Transaction :=
  with_done t (alter await i (done t)).

(** [for _, c := range t.done { select { case c <- err: default: } }] *)
Fixpoint fanOut (err : option goerror) (cs : list observer) : list observer :=
  match cs with
  | [] => []
  | c :: rest => notify err c :: fanOut err rest
  end.

Definition close (err : option goerror) (t : Transaction) : Transaction :=
  with_done t (fanOut err (done t)).

Definition WithContext (t : Transaction) (ctx : Context) : Context :=
  WithValue ctx (key_string "tx") (val_Transaction (self t)).

(** The deferred closure of [Commit] and [Rollback], followed by the two
    plain deferred calls [t.r.end()] and the decrement of the in-progress
    counter, in the order they run. *)
Definition finishTx (op : string) (err : option goerror) (c : Client)
  (w : World) : Client * World :=
  let c1 := with_s c (countOutcome err (s c)) in
  let w1 := match err with
            | None => w
            | Some _ => log Error op w
            end in
  let w2 := emit (EvSpanFinish "TX" false)
              (emit (EvSpanFinish op (bool_decide (err ≠ None))) w1) in
  let c3 := with_r c1 (end_ (r c1)) in
  let w3 := emit EvEnd w2 in
  (with_s c3 (addInProgress (-1) (s c3)), emit (EvInProgress (-1)) w3).

Definition Commit (t : Transaction) (ctx : Context) (c : Client) (w : World)
  : Transaction * Client * World * Result (option goerror) :=
  match txFromCtx ctx with
  | Some _ => (t, c, w, Returned None)
  | None =>
      let w1 := emit (EvSpanStart "COMMIT") w in
      let started := now w1 in
      let '(tx1, w2, err) := txCommit (tx t) w1 in
      let queryTime := now w2 - started in
      let txTime := now w2 - startedAt t in
      let q := mkQueryStats "COMMIT" queryTime 0 txTime in
      let c3 := with_s c (sample (s c) q) in
      let w3 := log Debug "COMMIT" (emit (EvSample q) w2) in
      let t4 := close err (with_tx t tx1) in
      let w4 := emit (EvClose err) w3 in
      let '(c5, w5) := finishTx "COMMIT" err c3 w4 in
      (t4, c5, w5, Returned err)
  end.

Definition Rollback (t : Transaction) (ctx : Context) (c : Client) (w : World)
  : Transaction * Client * World * Result (option goerror) :=
  match txFromCtx ctx with
  | Some _ => (t, c, w, Returned None)
  | None =>
      let w1 := emit (EvSpanStart "ROLLBACK") w in
      let started := now w1 in
      let '(tx1, w2, err) := txRollback (tx t) w1 in
      let queryTime := now w2 - started in
      let txTime := now w2 - startedAt t in
      let q := mkQueryStats "ROLLBACK" queryTime 0 txTime in
      let c3 := with_s c (sample (s c) q) in
      let w3 := log Debug "ROLLBACK" (emit (EvSample q) w2) in
      let fanned := match err with
                    | Some e => Some e
                    | None => Some ErrRollback
                    end in
      let t4 := close fanned (with_tx t tx1) in
      let w4 := emit (EvClose fanned) w3 in
      let '(c5, w5) := finishTx "ROLLBACK" err c3 w4 in
      (t4, c5, w5, Returned err)
  end.

(** *** Begin *)

(** What [Begin] returns as its [*Transaction]: the pointer it found in the
    context, or a transaction object it has just created. *)
Inductive TxRef : Type :=
| inherited (p : TxPtr)
| opened (t : Transaction).

Record TxOptions : Type := mkTxOptions {
  ReadOnly : bool
}.

(** [Begin] past the replica check. *)
Definition beginOnPrimary (c : Client) (ctx : Context) (w : World)
  : Client * World * reply TxRef :=
  match txFromCtx ctx with
  | Some p => (c, w, Returned (Some (inherited p), None))
  | None =>
      let '(c1, w1, lim) := limitReached c w in
      match lim with
      | Some e =>
          (* the [err] tested here is declared by the [if]: the variable the
             deferred closure points at stays nil *)
          (c1, w1, Returned (None, Some e))
      | None =>
          match start (r c1) with
          | None => (c1, w1, Blocked)
          | Some r1 =>
              let c2 := with_r c1 r1 in
              let w2 := emit EvStart w1 in
              let queueTime := 0 in
              let started := now w2 in
              let '(d3, w3, rep) := BeginTx (db c2) w2 in
              let err := match rep with
                         | BeginOk _ => None
                         | BeginErr e => Some e
                         end in
              let queryTime := now w3 - started in
              let q := mkQueryStats "BEGIN" queryTime queueTime 0 in
              let c3 := with_s (with_db c2 d3) (sample (s c2) q) in
              let w4 := log Debug "BEGIN" (emit (EvSample q) w3) in
              (* deferred, last first: conditionalEnd(&err), then the
                 closure that decrements when the variable is not nil *)
              let errp := addr_of err in
              let c5 := with_r c3 (conditionalEnd (r c3) errp) in
              let w5 := match errp with
                        | nil_ptr => w4
                        | addr_of _ => emit EvEnd w4
                        end in
              match rep with
              | BeginErr e =>
                  (with_s c5 (addInProgress (-1) (s c5)),
                   emit (EvInProgress (-1)) w5, Returned (None, Some e))
              | BeginOk tx =>
                  (c5, mkWorld (now w5) (trace w5) (S (nextTx w5)),
                   Returned (Some (opened
                     (newTransaction (nextTx w5) tx (config c5) w4)), None))
              end
          end
      end
  end.

Fixpoint Begin (c : Client) (ctx : Context) (opts : option TxOptions)
  (w : World) : Client * World * reply TxRef :=
  match c with
  | mkClient d (Some rc) cfg st rl =>
      if match opts with Some o => ReadOnly o | None => false end
      then let '(rc', w', res) := Begin rc ctx opts w in
           (mkClient d (Some rc') cfg st rl, w', res)
      else beginOnPrimary (mkClient d (Some rc) cfg st rl) ctx w
  | mkClient d None cfg st rl =>
      beginOnPrimary (mkClient d None cfg st rl) ctx w
  end.

(** The [Columns] values the package can produce: [newColumns] makes them
    and only [ColumnNames] and [ColumnIndex] touch their private fields. *)
Inductive reachable : Columns → Prop :=
| reach_new (cts : list ColumnType) : reachable (newColumns cts)
| reach_names (c : Columns) : reachable c → reachable (ColumnNames c).1
| reach_index (c : Columns) (name : string) :
    reachable c → reachable (ColumnIndex c name).1.




(** What [parked] asks of a call that is held on the relay: it has
    performed its increment and not yet its decrement. *)
Definition parked {A : Type} (w : World) (out : Client * World * Result A)
  : Prop :=
  out.2 = Blocked →
  occurrences (EvInProgress 1) (trace out.1.2)
  = S (occurrences (EvInProgress 1) (trace w))
  ∧ occurrences (EvInProgress (-1)) (trace out.1.2)
    = occurrences (EvInProgress (-1)) (trace w).

(** The driver's deadlock failure, as [IsErrorCode] recognises it. *)
Definition is_deadlock (e : goerror) : bool :=
  match e with
  | MySQLError number _ => number =? 1213
  | _ => false
  end.

Definition execDeadlocked (rep : ExecReply) : bool :=
  match rep with
  | ExecErr e => is_deadlock e
  | ExecOk _ => false
  end.

Definition queryDeadlocked (rep : QueryReply) : bool :=
  match rep with
  | QueryErr e => is_deadlock e
  | QueryOk _ => false
  end.

(** The pair [ExecContext] returns for a reply. *)
Definition execResult (rep : ExecReply) : option sqlResult :=
  match rep with
  | ExecOk res => Some res
  | ExecErr _ => None
  end.

Definition execError (rep : ExecReply) : option goerror :=
  match rep with
  | ExecOk _ => None
  | ExecErr e => Some e
  end.

Definition queryRows (rep : QueryReply) : option Rows :=
  match rep with
  | QueryOk rs => Some rs
  | QueryErr _ => None
  end.

Definition queryError (rep : QueryReply) : option goerror :=
  match rep with
  | QueryOk _ => None
  | QueryErr e => Some e
  end.

(** What one failed pass of the retry loop leaves in the trace: the
    attempt, then the sleep. *)
Definition execCycle (q : string) (dl : option Z) (delay : Z) : list event :=
  [EvExecContext q dl; EvLog Warning "deadlock"; EvSleep delay].

Definition queryCycle (q : string) (dl : option Z) (delay : Z) : list event :=
  [EvQueryContext q dl; EvSleep delay].

(** The private fields of a reachable value are either unset or hold what
    the two loops compute from the column types. *)
Definition cached (c : Columns) : Prop :=
  (names c = None ∨ names c = Some (map Name (columnTypes c)))
  ∧ (indexes c = None
     ∨ indexes c = Some (fillIndexes 0 (map Name (columnTypes c)) ∅)).

(** Induction along the chain of replicas. *)
Fixpoint Client_chain_ind (P : Client → Prop)
  (Hlast : ∀ d cfg st rl, P (mkClient d None cfg st rl))
  (Hnext : ∀ d rc cfg st rl, P rc → P (mkClient d (Some rc) cfg st rl))
  (c : Client) : P c :=
  match c with
  | mkClient d None cfg st rl => Hlast d cfg st rl
  | mkClient d (Some rc) cfg st rl =>
      Hnext d rc cfg st rl (Client_chain_ind P Hlast Hnext rc)
  end.


(** ** Sample inputs *)

Module Sample.

Definition emptyRows : Rows := mkRows (mkResultSet (inr []) []) [].

Definition tx0 : Tx := mkTx false None None 1 1.

(** A pool that answers every call with success after one time unit. *)
Definition healthy : DB :=
  mkDB 0 0 (λ _, 1) (λ _, ExecOk (mkSqlResult 1 1))
       (λ _, QueryOk emptyRows) (λ _, BeginOk tx0).

Definition deadlock : goerror := MySQLError 1213 "Deadlock found".

(** A pool on which every statement runs into a deadlock. *)
Definition deadlocked : DB :=
  mkDB 0 0 (λ _, 1) (λ _, ExecErr deadlock)
       (λ _, QueryErr deadlock) (λ _, BeginOk tx0).

Definition w0 : World := mkWorld 0 [] 0%nat.

(** The columns [id, name, id] and a row over them. *)
Definition cols : Columns :=
  newColumns [mkColumnType "id" "int64"; mkColumnType "name" "string";
              mkColumnType "id" "int64"].

Definition row : Row :=
  mkRow [mkElement elementInt (Some "1"); mkElement elementString (Some "a");
         mkElement elementInt (Some "2")] cols.

Definition c0 : Client := NewClient healthy.

(** [c0] with 10020 calls in progress: the next one is one too many for
    20 connections and 10000 queued calls. *)
Definition busy : Client :=
  mkClient (db c0) None (config c0) (mkStats 10020 0 0 (make_chan 100)) (r c0).

(** A client whose pool is [deadlocked]. *)
Definition stuck : Client := NewClient deadlocked.

(** A primary with a replica attached. *)
Definition primary : Client := SetReplica (NewClient healthy) (NewClient healthy).

(** An open transaction of [c0] with three observers, the first two of
    which are being read. *)
Definition t0 : Transaction :=
  mkTransaction 7%nat tx0 NewDefaultConfig
    [await make_observer; await make_observer; make_observer] 0.

(** [c0] as it is while [t0] is open: one call in progress, one ticket
    held. *)
Definition c0_open : Client :=
  mkClient (db c0) None (config c0) (addInProgress 1 (s c0))
           (mkRelay (mkChan [true] 200)).

End Sample.

(** ** Further definitions *)

(** The tickets held in the relay of a client and of the replicas behind
    it. *)
Fixpoint tickets (c : Client) : list nat :=
  match c with
  | mkClient _ rep _ _ rl =>
      held rl
      :: match rep with
         | Some rc => tickets rc
         | None => []
         end
  end.

(** The calls served by the pool of a client and of the replicas behind
    it. *)
Fixpoint served_calls (c : Client) : list nat :=
  match c with
  | mkClient d rep _ _ _ =>
      calls d
      :: match rep with
         | Some rc => served_calls rc
         | None => []
         end
  end.

(** results.go, multiresults.go *)
Definition Count (res : Results) : nat := length (Rows_ res).

Definition MultiCount (mr : MultiResults) : nat := length (Results_ mr).

(** [n] calls of [Done] in a row. *)
Definition register (n : nat) (t : Transaction) : Transaction :=
  Nat.iter n (λ t', (Done t').1) t.

(** The readers of all registered channels start receiving. *)
Definition awaitAll (t : Transaction) : Transaction :=
  with_done t (await <$> done t).

(** What [counted] asks of a call: it hands back a value or an error,
    never both and never neither, and the totals have moved by one success
    when it returned a value or panicked, by one failure when it returned
    an error, and not at all while it is parked. *)
Definition counted {A : Type} (c : Client)
  (out : Client * World * reply A) : Prop :=
  let st := s c in
  let st' := s out.1.1 in
  match out.2 with
  | Returned (Some _, None) | Panicked =>
      totalSuccessQueries st' = wrap64 (totalSuccessQueries st + 1)
      ∧ totalFailedQueries st' = totalFailedQueries st
  | Returned (None, Some _) =>
      totalFailedQueries st' = wrap64 (totalFailedQueries st + 1)
      ∧ totalSuccessQueries st' = totalSuccessQueries st
  | Returned _ => False
  | Blocked =>
      totalSuccessQueries st' = totalSuccessQueries st
      ∧ totalFailedQueries st' = totalFailedQueries st
  end.

(** *** Statements inside a transaction (transaction.go)

    The [*sql.Tx] of the model keeps no script of statements: the answer
    the driver gives to the one statement a call sends, and the time it
    takes, are arguments of the call. A finished [*sql.Tx] answers
    [sql.ErrTxDone] whatever the statement. As for [Commit], the client
    stands for the stats the transaction points at. *)

Definition txExecContext (dtx : Tx) (rep : ExecReply) : ExecReply :=
  if finished dtx then ExecErr ErrTxDone else rep.

Definition txQueryContext (dtx : Tx) (rep : QueryReply) : QueryReply :=
  if finished dtx then QueryErr ErrTxDone else rep.

(** The deferred closure of [Transaction.Exec] and [Transaction.Query]. *)
Definition finishStatement (op : string) (err : option goerror)
  (query : string) (c : Client) (w : World) : Client * World :=
  let c1 := with_s c (countOutcome err (s c)) in
  let w1 := match err with
            | None => w
            | Some _ => log Error query w
            end in
  (c1, emit (EvSpanFinish op (bool_decide (err ≠ None))) w1).

Definition TxExec (t : Transaction) (ctx : Context) (query : string)
  (rep : ExecReply) (lat : Z) (c : Client) (w : World)
  : Client * World * reply Meta :=
  let w1 := emit (EvSpanStart "EXEC") w in
  let started := now w1 in
  let ctx1 := withConfigTimeout (tconfig t) ctx w1 in
  let answer := txExecContext (tx t) rep in
  let w2 := elapse lat (emit (EvExecContext query (deadline ctx1)) w1) in
  let queryTime := now w2 - started in
  let q := mkQueryStats query queryTime 0 0 in
  let c3 := with_s c (sample (s c) q) in
  let w3 := emit (EvSample q) w2 in
  match answer with
  | ExecErr e =>
      let '(c4, w4) := finishStatement "EXEC" (Some e) query c3 w3 in
      (c4, w4, Returned (None, Some e))
  | ExecOk res =>
      let meta := mkMeta (LastIntertID (newMeta res))
                         (RowsAffected (newMeta res)) queryTime in
      let c4 := with_s c3 (sample (s c3) q) in
      let w4 := log Debug query (emit (EvSample q) w3) in
      let '(c5, w5) := finishStatement "EXEC" None query c4 w4 in
      (c5, w5, Returned (Some meta, None))
  end.

Definition TxQuery (t : Transaction) (ctx : Context) (query : string)
  (rep : QueryReply) (lat : Z) (c : Client) (w : World)
  : Client * World * reply Results :=
  let w1 := emit (EvSpanStart "QUERY") w in
  let started := now w1 in
  let ctx1 := withConfigTimeout (tconfig t) ctx w1 in
  let answer := txQueryContext (tx t) rep in
  let w2 := elapse lat (emit (EvQueryContext query (deadline ctx1)) w1) in
  let queryTime := now w2 - started in
  let q := mkQueryStats query queryTime 0 0 in
  let c3 := with_s c (sample (s c) q) in
  let w3 := emit (EvSample q) w2 in
  match answer with
  | QueryErr e =>
      let '(c4, w4) := finishStatement "QUERY" (Some e) query c3 w3 in
      (c4, w4, Returned (None, Some e))
  | QueryOk rs =>
      match newResultsFromSqlRows (current rs) with
      | inl e =>
          let '(c4, w4) :=
            finishStatement "QUERY" (Some e) query c3 (emit EvRowsClose w3) in
          (c4, w4, Returned (None, Some e))
      | inr results =>
          let '(c4, w4) :=
            finishStatement "QUERY" None query c3
              (emit EvRowsClose (log Debug query w3)) in
          (c4, w4, Returned (Some (withQueryTime results queryTime), None))
      end
  end.

(** [Transaction.Call] *)
Definition TxCall (t : Transaction) (ctx : Context) (procedure : string)
  (args : list string) (rep : QueryReply) (lat : Z) (c : Client) (w : World)
  : Client * World * reply Results :=
  TxQuery t ctx (call procedure (length args)) rep lat c w.

(** Decoding every result set of a batch in order: all the results, or
    the error of the first set that does not decode. *)
Fixpoint decodeAll (sets : list ResultSet) : goerror + list Results :=
  match sets with
  | [] => inr []
  | rs :: rest =>
      match newResultsFromSqlRows rs with
      | inl e => inl e
      | inr res =>
          match decodeAll rest with
          | inl e => inl e
          | inr all => inr (res :: all)
          end
      end
  end.

(** Further sample inputs. *)
Module More.

(** A client configured for an unlimited pool ([MaxOpenConns = 0]). *)
Definition unlimited : Client :=
  SetConfig (NewClient Sample.healthy)
    (mkConfig true 5 (Millisecond * 10) (Second * 10) 10000 0 0
              (Second * 60) false).

(** A pool that refuses to open transactions. *)
Definition refusing : DB :=
  mkDB 0 0 (λ _, 1) (λ _, ExecOk (mkSqlResult 1 1))
       (λ _, QueryOk Sample.emptyRows)
       (λ _, BeginErr (errorString "connection refused")).

(** A client whose retry count was set to [-1]. *)
Definition negative : Client :=
  SetConfig (NewClient Sample.healthy)
    (mkConfig true (-1) (Millisecond * 10) (Second * 10) 10000 20 20
              (Second * 60) false).

(** A result set with one integer column and one row. *)
Definition oneRow (name value : string) : ResultSet :=
  mkResultSet (inr [mkColumnType name "int64"]) [[Some value]].

(** A result set whose column the decoder has no case for. *)
Definition oddSet : ResultSet :=
  mkResultSet (inr [mkColumnType "j" "json"]) [[Some "{}"]].

(** A pool that answers every query with three result sets. *)
Definition batch : DB :=
  mkDB 0 0 (λ _, 1) (λ _, ExecOk (mkSqlResult 1 1))
       (λ _, QueryOk (mkRows (oneRow "a" "1") [oneRow "b" "2"; oneRow "c" "3"]))
       (λ _, BeginOk Sample.tx0).

(** A pool whose second result set does not decode. *)
Definition garbled : DB :=
  mkDB 0 0 (λ _, 1) (λ _, ExecOk (mkSqlResult 1 1))
       (λ _, QueryOk (mkRows (oneRow "a" "1") [oddSet; oneRow "c" "3"]))
       (λ _, BeginOk Sample.tx0).

End More.

(** * Properties *)

(** ** Arithmetic and traces *)

Arguments IsErrorCode : simpl never.
Arguments wrap64 : simpl never.

Lemma wrap64_id (z : Z) : in_int64 z → wrap64 z = z.
Proof.
  unfold in_int64, int64_min, int64_max, wrap64. intros H.
  rewrite Z.mod_small; lia.
Qed.

(** An increment followed by a decrement gives the counter back, whether
    or not the increment wrapped. *)
Lemma wrap64_inc_dec (z : Z) : in_int64 z → wrap64 (wrap64 (z + 1) + -1) = z.
Proof.
  unfold in_int64, int64_min, int64_max, wrap64. intros H.
  destruct (decide (z = 2 ^ 63 - 1)) as [->|Hne].
  - reflexivity.
  - rewrite (Z.mod_small (z + 1 + 2 ^ 63)) by lia.
    rewrite Z.mod_small; lia.
Qed.

Lemma occurrences_app (e : event) (tr1 tr2 : list event) :
  occurrences e (tr1 ++ tr2) = (occurrences e tr1 + occurrences e tr2)%nat.
Proof. unfold occurrences. by rewrite filter_app, length_app. Qed.

Lemma occurrences_emit (e e' : event) (w : World) :
  occurrences e (trace (emit e' w))
  = (occurrences e (trace w) + if decide (e' = e) then 1 else 0)%nat.
Proof.
  unfold emit; simpl. rewrite occurrences_app. f_equal.
  unfold occurrences. rewrite filter_cons, filter_nil.
  destruct (decide (e' = e)); reflexivity.
Qed.

Lemma occurrences_nil (e : event) : occurrences e [] = 0%nat.
Proof. reflexivity. Qed.

Lemma occurrences_cons (e e' : event) (tr : list event) :
  occurrences e (e' :: tr)
  = ((if decide (e' = e) then 1 else 0) + occurrences e tr)%nat.
Proof.
  unfold occurrences. rewrite filter_cons.
  destruct (decide (e' = e)); reflexivity.
Qed.

(** Counts the occurrences of an event in a trace built from [emit] and
    list concatenation. *)
Lemma trace_elapse (d : Z) (w : World) : trace (elapse d w) = trace w.
Proof. reflexivity. Qed.

Ltac count_events :=
  cbv zeta; unfold Sleep, log;
  repeat first [ rewrite trace_elapse | rewrite occurrences_emit
               | rewrite occurrences_app | rewrite occurrences_cons
               | rewrite occurrences_nil ];
  repeat case_decide; simplify_eq; try lia.

(** ** The telemetry channel *)

Lemma try_send_cap {T} (c : chan T) (v : T) : cap (try_send c v).1 = cap c.
Proof. unfold try_send. case_bool_decide; reflexivity. Qed.

Lemma try_send_bounded {T} (c : chan T) (v : T) :
  (length (buf c) ≤ cap c → length (buf (try_send c v).1) ≤ cap c)%nat.
Proof.
  unfold try_send. case_bool_decide; simpl; [rewrite length_app; simpl|]; lia.
Qed.

(** A burst of samples leaves the first ones that fit in the queue. *)
Lemma burst_buf (qs : list QueryStats) (s0 : stats) :
  buf (sampleChan (foldl sample s0 qs))
  = buf (sampleChan s0)
    ++ take (cap (sampleChan s0) - length (buf (sampleChan s0))) qs
  ∧ cap (sampleChan (foldl sample s0 qs)) = cap (sampleChan s0).
Proof.
  revert s0. induction qs as [|q qs IH]; intros s0; simpl.
  - by rewrite take_nil, app_nil_r.
  - destruct (IH (sample s0 q)) as [-> ->]. unfold sample; simpl.
    rewrite try_send_cap. split; [|done].
    unfold try_send. case_bool_decide as Hlt; simpl.
    + rewrite length_app; simpl. rewrite <- app_assoc; simpl.
      replace (cap (sampleChan s0) - length (buf (sampleChan s0)))%nat
        with (S (cap (sampleChan s0) - (length (buf (sampleChan s0)) + 1)))%nat
        by lia.
      reflexivity.
    + replace (cap (sampleChan s0) - length (buf (sampleChan s0)))%nat
        with 0%nat by lia.
      reflexivity.
Qed.

(** C9. [stats.sample] is a step that always completes, whatever the state
    of the telemetry channel: the sample is appended to the queue when the
    queue is shorter than its capacity and the call changes nothing
    otherwise; the queue never grows past the capacity, which [newStats]
    fixes at 100, so that a burst of any length leaves exactly its first
    100 samples queued and drops the rest. The blocking send [send], by
    contrast, does not complete on a full channel. *)
Theorem sample_never_blocks :
  (∀ (st : stats) (q : QueryStats),
     sampleChan (sample st q)
     = (if bool_decide (length (buf (sampleChan st)) < cap (sampleChan st))%nat
        then mkChan (buf (sampleChan st) ++ [q]) (cap (sampleChan st))
        else sampleChan st)
     ∧ inProgressQueries (sample st q) = inProgressQueries st
     ∧ totalSuccessQueries (sample st q) = totalSuccessQueries st
     ∧ totalFailedQueries (sample st q) = totalFailedQueries st
     ∧ ((length (buf (sampleChan st)) ≤ cap (sampleChan st))%nat →
        (length (buf (sampleChan (sample st q))) ≤ cap (sampleChan st))%nat)
     ∧ ((cap (sampleChan st) ≤ length (buf (sampleChan st)))%nat →
        sample st q = st ∧ send (sampleChan st) q = None))
  ∧ cap (sampleChan newStats) = 100%nat
  ∧ buf (sampleChan newStats) = []
  ∧ ∀ qs : list QueryStats,
      buf (sampleChan (foldl sample newStats qs)) = take 100 qs
      ∧ (length (buf (sampleChan (foldl sample newStats qs))) ≤ 100)%nat.
Proof.
  split; [|split; [reflexivity|split; [reflexivity|]]].
  - intros st q. unfold sample; simpl. repeat split.
    + unfold try_send. case_bool_decide; reflexivity.
    + apply try_send_bounded.
    + destruct st as [a b c ch]; simpl in *. unfold try_send.
      case_bool_decide; [lia|reflexivity].
    + unfold send. case_bool_decide; [lia|reflexivity].
  - intros qs. destruct (burst_buf qs newStats) as [Hb _].
    rewrite Hb; simpl. split; [reflexivity|].
    rewrite length_take. lia.
Qed.

(** ** The relay *)

Lemma held_end (t : relay) : held (end_ t) = (held t - 1)%nat.
Proof.
  destruct t as [[[|b q] n]]; unfold held, end_, try_recv; simpl; lia.
Qed.

(** C2. [conditionalEnd] called with the address of an error variable
    releases a ticket whatever the variable holds: it tests the pointer,
    which is never nil, not the error it points at. With the variable nil
    (the operation succeeded) a held ticket is released all the same, and a
    successful [Begin] on a fresh client returns an open transaction while
    the relay holds no ticket. *)
Theorem conditionalEnd_releases_on_success :
  (∀ (t : relay) (v : option goerror), conditionalEnd t (addr_of v) = end_ t)
  ∧ (∀ t : relay, held (conditionalEnd t (addr_of None)) = (held t - 1)%nat)
  ∧ held (conditionalEnd (mkRelay (mkChan [true] 200)) (addr_of None)) = 0%nat
  ∧ (let '(c', w', res) := Begin Sample.c0 Background None Sample.w0 in
     res = Returned (Some (opened (mkTransaction 0%nat Sample.tx0 NewDefaultConfig [] 1)),
                     None)
     ∧ held (r c') = 0%nat
     ∧ inProgressQueries (s c') = 1
     ∧ occurrences EvStart (trace w') = 1%nat
     ∧ occurrences EvEnd (trace w') = 1%nat).
Proof.
  split; [reflexivity|]. split; [intros t; apply held_end|].
  split; [reflexivity|]. vm_compute. repeat split.
Qed.

(** ** Transactions *)

Lemma fanOut_length (err : option goerror) (cs : list observer) :
  length (fanOut err cs) = length cs.
Proof. induction cs; simpl; congruence. Qed.

Lemma fanOut_lookup (err : option goerror) (cs : list observer) (i : nat) :
  fanOut err cs !! i = notify err <$> cs !! i.
Proof.
  revert i. induction cs as [|c cs IH]; intros [|i]; simpl; try reflexivity.
  apply IH.
Qed.

(** C7. Registering an observer after the terminal transition does not
    deliver the terminal result: [Done] appends a fresh channel and never
    looks at whether the transaction is over, nothing remembers the value
    that was fanned out, and the reader of the late channel stays parked
    with nothing received. *)
Theorem late_Done_receives_nothing
  (t : Transaction) (ctx : Context) (c : Client) (w : World) :
  let t1 := (Commit t ctx c w).1.1.1 in
  let '(t2, i) := Done t1 in
  i = length (done t1)
  ∧ done t2 !! i = Some make_observer
  ∧ done (awaitDone i t2) !! i = Some (mkObserver true [])
  ∧ (let '(t3, j) := Done (Commit Sample.t0 Background Sample.c0_open Sample.w0).1.1.1 in
     finished (tx t3) = true
     ∧ received <$> done (awaitDone j t3) = [[None]; [None]; []; []]).
Proof.
  simpl. split; [reflexivity|].
  assert (Hl : ∀ (l : list observer) x, (l ++ [x]) !! length l = Some x).
  { intros l x. rewrite lookup_app_r by lia. by rewrite Nat.sub_diag. }
  split; [apply Hl|]. split.
  - unfold awaitDone; simpl. rewrite list_lookup_alter, Hl.
    rewrite decide_True by done. reflexivity.
  - vm_compute. split; reflexivity.
Qed.

(** C6. A [Rollback] that runs (the context carries no transaction) sends
    one value to every registered observer by a send that does not wait:
    the sentinel [ErrRollback] when the driver's rollback returned no
    error, the driver's error when it returned one. The value is never nil;
    an observer whose reader is parked receives it, any other is skipped
    and left as it was. The call itself returns the driver's answer. *)
Theorem Rollback_fans_out
  (t : Transaction) (ctx : Context) (c : Client) (w : World)
  (Howner : txFromCtx ctx = None) :
  let '(t', c', w', res) := Rollback t ctx c w in
  let driver := (txRollback (tx t) (emit (EvSpanStart "ROLLBACK") w)).2 in
  let fanned := match driver with
                | None => ErrRollback
                | Some e => e
                end in
  res = Returned driver
  ∧ (finished (tx t) = false → driver = rollbackReply (tx t))
  ∧ length (done t') = length (done t)
  ∧ (∀ (i : nat) (o : observer), done t !! i = Some o →
       done t' !! i
       = Some (if waiting o
               then mkObserver false (received o ++ [Some fanned])
               else o))
  ∧ occurrences (EvClose (Some fanned)) (trace w')
    = S (occurrences (EvClose (Some fanned)) (trace w)).
Proof.
  unfold Rollback. rewrite Howner.
  destruct (txRollback (tx t) (emit (EvSpanStart "ROLLBACK") w))
    as [[tx1 w2] err] eqn:Htx.
  simpl.
  assert (Hfan : match err with Some e => Some e | None => Some ErrRollback end
                 = Some match err with None => ErrRollback | Some e => e end)
    by (destruct err; reflexivity).
  rewrite Hfan. clear Hfan.
  set (fanned := match err with None => ErrRollback | Some e => e end).
  split; [reflexivity|]. split.
  { intros Hf. unfold txRollback in Htx. rewrite Hf in Htx. congruence. }
  split; [apply fanOut_length|]. split.
  { intros i o Hi. rewrite fanOut_lookup, Hi. reflexivity. }
  assert (Hw2 : trace w2 = trace w ++ [EvSpanStart "ROLLBACK"; EvTxRollback]).
  { unfold txRollback in Htx. destruct (finished (tx t)); simplify_eq;
      simpl; by rewrite <- app_assoc. }
  unfold finishTx, log.
  clearbody fanned. destruct err; count_events; rewrite Hw2; count_events.
Qed.

Lemma Rollback_fans_out_witness :
  txFromCtx Background = None
  ∧ (Rollback Sample.t0 Background Sample.c0_open Sample.w0).2 = Returned None
  ∧ received <$> done (Rollback Sample.t0 Background Sample.c0_open Sample.w0).1.1.1
    = [[Some ErrRollback]; [Some ErrRollback]; []].
Proof.
  split; [reflexivity|].
  pose proof (Rollback_fans_out Sample.t0 Background Sample.c0_open Sample.w0
                eq_refl) as H.
  split; [exact (proj1 H)|].
  vm_compute. reflexivity.
Defined.

(** A context that carries the transaction's own handle, the owner's, is
    treated like any other: [Commit] and [Rollback] return nil and leave
    the transaction open, whereas the specification has the owner's call run. *)
Lemma owner_context_is_skipped :
  let ctx := WithContext Sample.t0 Background in
  txFromCtx ctx = Some (self Sample.t0)
  ∧ Commit Sample.t0 ctx Sample.c0_open Sample.w0
    = (Sample.t0, Sample.c0_open, Sample.w0, Returned None)
  ∧ Rollback Sample.t0 ctx Sample.c0_open Sample.w0
    = (Sample.t0, Sample.c0_open, Sample.w0, Returned None)
  ∧ finished (tx (Commit Sample.t0 ctx Sample.c0_open Sample.w0).1.1.1) = false
  ∧ held (r (Commit Sample.t0 ctx Sample.c0_open Sample.w0).1.1.2) = 1%nat.
Proof. repeat split. Qed.

(** C1 (amended). [Commit] and [Rollback] skip exactly when the context
    carries a transaction handle, whichever transaction it points at, the
    receiver's own included: the call returns nil and changes nothing. With
    a context that carries no transaction they run: the driver's commit or
    rollback is called once and the transaction is finished, the call
    returns the driver's answer, one ticket is released, the in-progress
    counter is decremented, and every registered observer is offered the
    result. *)
Theorem Commit_Rollback_skip_iff_context_has_tx
  (t : Transaction) (ctx : Context) (c : Client) (w : World) :
  match txFromCtx ctx with
  | Some _ =>
      Commit t ctx c w = (t, c, w, Returned None)
      ∧ Rollback t ctx c w = (t, c, w, Returned None)
  | None =>
      (let '(t', c', w', res) := Commit t ctx c w in
       let driver := (txCommit (tx t) (emit (EvSpanStart "COMMIT") w)).2 in
       res = Returned driver
       ∧ finished (tx t') = true
       ∧ occurrences EvTxCommit (trace w') = S (occurrences EvTxCommit (trace w))
       ∧ r c' = end_ (r c)
       ∧ occurrences EvEnd (trace w') = S (occurrences EvEnd (trace w))
       ∧ inProgressQueries (s c') = wrap64 (inProgressQueries (s c) + -1)
       ∧ done t' = fanOut driver (done t))
      ∧ (let '(t', c', w', res) := Rollback t ctx c w in
         let driver := (txRollback (tx t) (emit (EvSpanStart "ROLLBACK") w)).2 in
         res = Returned driver
         ∧ finished (tx t') = true
         ∧ occurrences EvTxRollback (trace w')
           = S (occurrences EvTxRollback (trace w))
         ∧ r c' = end_ (r c)
         ∧ occurrences EvEnd (trace w') = S (occurrences EvEnd (trace w))
         ∧ inProgressQueries (s c') = wrap64 (inProgressQueries (s c) + -1)
         ∧ done t' = fanOut (Some (default ErrRollback driver)) (done t))
  end.
Proof.
  destruct (txFromCtx ctx) as [p|] eqn:Hctx.
  { unfold Commit, Rollback. rewrite Hctx. split; reflexivity. }
  split.
  - unfold Commit. rewrite Hctx.
    destruct (txCommit (tx t) (emit (EvSpanStart "COMMIT") w))
      as [[tx1 w2] err] eqn:Htx.
    assert (Hw2 : trace w2 = trace w ++ [EvSpanStart "COMMIT"; EvTxCommit]
                  ∧ finished tx1 = true).
    { unfold txCommit in Htx. destruct (finished (tx t)) eqn:Hf; simplify_eq;
        simpl; by rewrite <- app_assoc. }
    destruct Hw2 as [Hw2 Hfin]. simpl.
    split; [reflexivity|]. split; [exact Hfin|].
    unfold finishTx, log.
    split; [destruct err; count_events; rewrite Hw2; count_events|].
    split; [destruct err; reflexivity|].
    split; [destruct err; count_events; rewrite Hw2; count_events|].
    split; [destruct err; reflexivity|reflexivity].
  - unfold Rollback. rewrite Hctx.
    destruct (txRollback (tx t) (emit (EvSpanStart "ROLLBACK") w))
      as [[tx1 w2] err] eqn:Htx.
    assert (Hw2 : trace w2 = trace w ++ [EvSpanStart "ROLLBACK"; EvTxRollback]
                  ∧ finished tx1 = true).
    { unfold txRollback in Htx. destruct (finished (tx t)) eqn:Hf; simplify_eq;
        simpl; by rewrite <- app_assoc. }
    destruct Hw2 as [Hw2 Hfin]. simpl.
    split; [reflexivity|]. split; [exact Hfin|].
    unfold finishTx, log.
    split; [destruct err; count_events; rewrite Hw2; count_events|].
    split; [destruct err; reflexivity|].
    split; [destruct err; count_events; rewrite Hw2; count_events|].
    split; [destruct err; reflexivity|destruct err; reflexivity].
Qed.

(** ** Columns and rows *)

Lemma fillNames_spec (cts : list ColumnType) (i : nat) (ns : list string) :
  (i + length cts ≤ length ns)%nat →
  fillNames i cts ns
  = take i ns ++ map Name cts ++ drop (i + length cts) ns.
Proof.
  revert i ns. induction cts as [|ct cts IH]; intros i ns Hlen; simpl in *.
  - rewrite Nat.add_0_r. by rewrite take_drop.
  - rewrite IH by (rewrite length_insert; lia).
    rewrite drop_insert_lt by lia.
    rewrite (take_S_r _ i (Name ct)) by (apply list_lookup_insert_eq; lia).
    rewrite take_insert_ge by lia.
    rewrite <- app_assoc. simpl.
    by replace (i + S (length cts))%nat with (S (i + length cts)) by lia.
Qed.

Lemma ColumnNames_fresh (cts : list ColumnType) :
  fillNames 0 cts (replicate (length cts) EmptyString) = map Name cts.
Proof.
  rewrite fillNames_spec by (rewrite length_replicate; lia).
  simpl. rewrite drop_ge by (rewrite length_replicate; lia).
  apply app_nil_r.
Qed.

Lemma fillIndexes_notin (ns : list string) (i : nat) (m : gmap string nat)
  (name : string) :
  name ∉ ns → fillIndexes i ns m !! name = m !! name.
Proof.
  revert i m. induction ns as [|n ns IH]; intros i m Hn; simpl; [done|].
  apply not_elem_of_cons in Hn as [Hne Hn].
  rewrite IH by done. by rewrite lookup_insert_ne.
Qed.

(** What the map holds for a name that occurs: the position of its last
    occurrence. *)
Lemma fillIndexes_in (ns : list string) (i : nat) (m : gmap string nat)
  (name : string) :
  name ∈ ns →
  ∃ j : nat, fillIndexes i ns m !! name = Some (i + j)%nat
             ∧ ns !! j = Some name
             ∧ ∀ j' : nat, (j < j')%nat → ns !! j' ≠ Some name.
Proof.
  revert i m. induction ns as [|n ns IH]; intros i m Hin; simpl.
  { by apply elem_of_nil in Hin. }
  destruct (decide (name ∈ ns)) as [Hrest|Hrest].
  - destruct (IH (S i) (<[n:=i]> m) Hrest) as (j & Hj & Hl & Hlast).
    exists (S j). split; [rewrite Hj; f_equal; lia|]. split; [done|].
    intros [|j'] Hlt; [lia|]. simpl. apply Hlast. lia.
  - apply elem_of_cons in Hin as [->|Hin]; [|done].
    exists 0%nat. rewrite fillIndexes_notin by done.
    rewrite lookup_insert_eq. split; [f_equal; lia|]. split; [done|].
    intros [|j'] Hlt; [lia|]. simpl. intros Hl.
    apply Hrest. eapply list_elem_of_lookup_2, Hl.
Qed.

Lemma ColumnNames_cached (c : Columns) :
  cached c →
  cached (ColumnNames c).1
  ∧ columnTypes (ColumnNames c).1 = columnTypes c
  ∧ (ColumnNames c).2 = map Name (columnTypes c).
Proof.
  intros [Hn Hi]. unfold ColumnNames.
  destruct (names c) as [ns|] eqn:Hns; simpl.
  - destruct Hn as [?|Hn]; [congruence|]. simplify_eq.
    split; [|done]. split; [right; congruence|done].
  - rewrite ColumnNames_fresh. split; [|done]. split; [by right|done].
Qed.

Lemma ColumnIndex_cached (c : Columns) (name : string) :
  cached c →
  cached (ColumnIndex c name).1
  ∧ columnTypes (ColumnIndex c name).1 = columnTypes c
  ∧ (ColumnIndex c name).2
    = match fillIndexes 0 (map Name (columnTypes c)) ∅ !! name with
      | Some index => (index, None)
      | None => (0%nat, Some (errorString "column name not found"))
      end.
Proof.
  intros Hc. unfold ColumnIndex.
  destruct (indexes c) as [m|] eqn:Hm.
  - destruct Hc as [Hn [?|Hi]]; [congruence|]. simplify_eq.
    destruct (_ !! name); simpl; (split; [|done]); (split; [done|]);
      right; congruence.
  - destruct (ColumnNames_cached c Hc) as ([Hn' Hi'] & Hct & Hns).
    destruct (ColumnNames c) as [c' ns]. simpl in *. subst ns.
    destruct (_ !! name); simpl; (split; [|done]); (split; [done|]);
      right; by rewrite Hct.
Qed.

Lemma reachable_cached (c : Columns) : reachable c → cached c.
Proof.
  induction 1 as [cts|c _ IH|c name _ IH].
  - split; by left.
  - by apply ColumnNames_cached.
  - by apply ColumnIndex_cached.
Qed.

(** C10. For a [Columns] value the package can produce, [ColumnNames] is
    the list of the columns' names in order, and [ColumnIndex name]
    succeeds exactly when [name] occurs in it: for a name that occurs it
    returns the position of the last occurrence with a nil error, for one
    that does not it returns an error. [GetElementByName] on a row with one
    element per column returns the element at that position for a name
    that occurs, and nil for one that does not. *)
Theorem ColumnIndex_finds_last_occurrence
  (c : Columns) (name : string) (Hc : reachable c) :
  let ns := (ColumnNames c).2 in
  ns = map Name (columnTypes c)
  ∧ reachable (ColumnIndex c name).1
  ∧ ((ColumnIndex c name).2.2 = None ↔ name ∈ ns)
  ∧ (name ∈ ns →
     ∃ i : nat, (ColumnIndex c name).2 = (i, None)
                ∧ ns !! i = Some name
                ∧ ∀ j : nat, (i < j)%nat → ns !! j ≠ Some name)
  ∧ ∀ row : Row,
      Columns_ row = c →
      length (Elements row) = length (columnTypes c) →
      (name ∈ ns →
       ∃ (i : nat) (e : Element),
         (ColumnIndex c name).2 = (i, None)
         ∧ Elements row !! i = Some e
         ∧ (GetElementByName row name).2 = Returned (Some e))
      ∧ (name ∉ ns → (GetElementByName row name).2 = Returned None).
Proof.
  pose proof (reachable_cached c Hc) as Hcached.
  destruct (ColumnNames_cached c Hcached) as (_ & _ & Hns).
  destruct (ColumnIndex_cached c name Hcached) as (_ & _ & Hidx).
  simpl. rewrite Hns. split; [reflexivity|].
  split; [by constructor|].
  assert (Hin : name ∈ map Name (columnTypes c) →
                ∃ i : nat, (ColumnIndex c name).2 = (i, None)
                  ∧ map Name (columnTypes c) !! i = Some name
                  ∧ ∀ j : nat, (i < j)%nat →
                               map Name (columnTypes c) !! j ≠ Some name).
  { intros Hin.
    destruct (fillIndexes_in _ 0 ∅ name Hin) as (j & Hj & Hl & Hlast).
    exists j. rewrite Hidx, Hj. done. }
  assert (Hout : name ∉ map Name (columnTypes c) →
                 (ColumnIndex c name).2
                 = (0%nat, Some (errorString "column name not found"))).
  { intros Hn. rewrite Hidx, fillIndexes_notin by done.
    by rewrite lookup_empty. }
  split; [|split; [exact Hin|]].
  - split.
    + intros He. destruct (decide (name ∈ map Name (columnTypes c))); [done|].
      rewrite Hout in He by done. done.
    + intros Hn. destruct (Hin Hn) as (i & -> & _). done.
  - intros row Hrow Hlen. split.
    + intros Hn. destruct (Hin Hn) as (i & Hi & Hl & _).
      assert (Hlt : (i < length (Elements row))%nat).
      { rewrite Hlen, <- (length_map Name). by eapply lookup_lt_Some. }
      destruct (lookup_lt_is_Some_2 _ _ Hlt) as [e He].
      exists i, e. split; [done|]. split; [done|].
      unfold GetElementByName. rewrite Hrow.
      destruct (ColumnIndex c name) as [c' [i' err]]. simpl in Hi.
      simplify_eq. by rewrite He.
    + intros Hn. unfold GetElementByName. rewrite Hrow.
      destruct (ColumnIndex c name) as [c' [i' err]].
      rewrite Hout in Hidx by done. simpl in *.
      specialize (Hout Hn). by simplify_eq.
Qed.

Lemma ColumnIndex_finds_last_occurrence_witness :
  reachable Sample.cols
  ∧ (ColumnIndex Sample.cols "id").2 = (2%nat, None)
  ∧ (GetElementByName Sample.row "id").2
    = Returned (Some (mkElement elementInt (Some "2")))
  ∧ (GetElementByName Sample.row "age").2 = Returned None.
Proof.
  split; [constructor|].
  pose proof (ColumnIndex_finds_last_occurrence Sample.cols "id"
                (reach_new _)) as H.
  destruct H as (_ & _ & _ & _ & H).
  destruct (H Sample.row eq_refl eq_refl) as [_ _].
  vm_compute. repeat split.
Defined.

(** ** The admission limit check *)

Lemma limitReached_eq (c : Client) (w : World) :
  limitReached c w
  = (with_s c (addInProgress 1 (s c)), emit (EvInProgress 1) w,
     if wrap64 (wrap64 (inProgressQueries (s c) + 1) - MaxOpenConnections (db c))
        >? MaxQueuedQueries (config c)
     then Some ErrQueueOverloaded else None).
Proof. unfold limitReached. simpl. by case_match. Qed.

Lemma Query_no_replica (c : Client) (ctx : Context) (q : string) (w : World) :
  replica c = None → Query c ctx q w = queryOnPrimary c ctx q w.
Proof. destruct c as [d [rc|] cfg st rl]; simpl; [done|reflexivity]. Qed.

Lemma Query_replica (c rc : Client) (ctx : Context) (q : string) (w : World) :
  replica c = Some rc →
  Query c ctx q w
  = (mkClient (db c) (Some (Query rc ctx q w).1.1) (config c) (s c) (r c),
     (Query rc ctx q w).1.2, (Query rc ctx q w).2).
Proof.
  destruct c as [d [rc0|] cfg st rl]; simpl; [|done]. intros [= ->].
  by destruct (Query rc ctx q w) as [[rc' w'] res].
Qed.

(** C4. Evaluating the limit check adds one to the in-progress counter and
    reports [ErrQueueOverloaded] exactly when the incremented count minus
    the pool's [MaxOpenConnections] is greater than [MaxQueuedQueries]
    (the counter and the difference being within [int64]); it reports
    nothing else. When it reports the overload, [Exec], [Query],
    [MultiQuery] and [Begin] return that error at once: the relay and the
    pool are left as they were, and no ticket is taken. *)
Theorem limitReached_rejects_before_queueing
  (c : Client) (ctx : Context) (query : string) (w : World)
  (Hinc : in_int64 (inProgressQueries (s c) + 1))
  (Hsub : in_int64 (inProgressQueries (s c) + 1 - MaxOpenConnections (db c))) :
  let '(c1, w1, lim) := limitReached c w in
  let over := inProgressQueries (s c) + 1 - MaxOpenConnections (db c)
              > MaxQueuedQueries (config c) in
  inProgressQueries (s c1) = inProgressQueries (s c) + 1
  ∧ occurrences (EvInProgress 1) (trace w1)
    = S (occurrences (EvInProgress 1) (trace w))
  ∧ (lim = Some ErrQueueOverloaded ↔ over)
  ∧ (lim = None ↔ ¬ over)
  ∧ (over →
     (let '(c', w', res) := Exec c ctx query w in
      res = Returned (None, Some ErrQueueOverloaded)
      ∧ r c' = r c ∧ db c' = db c
      ∧ occurrences EvStart (trace w') = occurrences EvStart (trace w))
     ∧ (let '(c', w', res) := MultiQuery c ctx query w in
        res = Returned (None, Some ErrQueueOverloaded)
        ∧ r c' = r c ∧ db c' = db c
        ∧ occurrences EvStart (trace w') = occurrences EvStart (trace w))
     ∧ (replica c = None →
        let '(c', w', res) := Query c ctx query w in
        res = Returned (None, Some ErrQueueOverloaded)
        ∧ r c' = r c ∧ db c' = db c
        ∧ occurrences EvStart (trace w') = occurrences EvStart (trace w))
     ∧ (txFromCtx ctx = None →
        let '(c', w', res) := beginOnPrimary c ctx w in
        res = Returned (None, Some ErrQueueOverloaded)
        ∧ r c' = r c ∧ db c' = db c
        ∧ occurrences EvStart (trace w') = occurrences EvStart (trace w))).
Proof.
  rewrite limitReached_eq. cbv zeta.
  rewrite (wrap64_id _ Hinc), (wrap64_id _ Hsub).
  destruct (Z.gtb_spec
              (inProgressQueries (s c) + 1 - MaxOpenConnections (db c))
              (MaxQueuedQueries (config c))) as [Hgt|Hle].
  - split; [cbn [inProgressQueries s with_s addInProgress]; by apply wrap64_id|].
    split; [count_events|].
    split; [split; [lia|done]|]. split; [split; [done|lia]|].
    intros _.
    assert (Hlim : limitReached c w
                   = (with_s c (addInProgress 1 (s c)),
                      emit (EvInProgress 1) w, Some ErrQueueOverloaded)).
    { rewrite limitReached_eq, (wrap64_id _ Hinc), (wrap64_id _ Hsub).
      destruct (Z.gtb_spec
                  (inProgressQueries (s c) + 1 - MaxOpenConnections (db c))
                  (MaxQueuedQueries (config c))); [done|lia]. }
    split; [|split; [|split]].
    + unfold Exec. rewrite Hlim. unfold deferred, log; simpl.
      repeat split. count_events.
    + unfold MultiQuery. rewrite Hlim. unfold deferred, log; simpl.
      repeat split. count_events.
    + intros Hrep. rewrite Query_no_replica by done.
      unfold queryOnPrimary. rewrite Hlim. unfold deferred, log; simpl.
      repeat split. count_events.
    + intros Hctx. unfold beginOnPrimary. rewrite Hctx, Hlim. simpl.
      repeat split. count_events.
  - split; [cbn [inProgressQueries s with_s addInProgress]; by apply wrap64_id|].
    split; [count_events|].
    split; [split; [done|lia]|]. split; [split; [lia|done]|]. lia.
Qed.

Lemma limitReached_rejects_before_queueing_witness :
  in_int64 (inProgressQueries (s Sample.busy) + 1)
  ∧ in_int64 (inProgressQueries (s Sample.busy) + 1
              - MaxOpenConnections (db Sample.busy))
  ∧ (limitReached Sample.busy Sample.w0).2 = Some ErrQueueOverloaded.
Proof.
  assert (H1 : in_int64 (inProgressQueries (s Sample.busy) + 1))
    by (vm_compute; split; discriminate).
  assert (H2 : in_int64 (inProgressQueries (s Sample.busy) + 1
                         - MaxOpenConnections (db Sample.busy)))
    by (vm_compute; split; discriminate).
  split; [exact H1|]. split; [exact H2|].
  pose proof (limitReached_rejects_before_queueing Sample.busy Background
                "UPDATE t SET x = 1" Sample.w0 H1 H2) as H.
  destruct (limitReached Sample.busy Sample.w0) as [[c1 w1] lim].
  cbv zeta in H. destruct H as (_ & _ & [_ Hover] & _).
  apply Hover. vm_compute. reflexivity.
Defined.

(** ** Replica routing *)

Lemma deferred_fields (err : option goerror) (q : string) (c : Client)
  (w : World) :
  replica (deferred err q c w).1 = replica c
  ∧ db (deferred err q c w).1 = db c
  ∧ r (deferred err q c w).1 = r c
  ∧ config (deferred err q c w).1 = config c
  ∧ s (deferred err q c w).1 = countOutcome err (addInProgress (-1) (s c)).
Proof. unfold deferred. destruct err; simpl; done. Qed.

Lemma Exec_replica (c : Client) (ctx : Context) (q : string) (w : World) :
  replica (Exec c ctx q w).1.1 = replica c.
Proof.
  unfold Exec. rewrite limitReached_eq.
  repeat case_match; simplify_eq; simpl;
    try match goal with
        | H : deferred ?e ?q ?c ?w = _ |- _ =>
            pose proof (deferred_fields e q c w) as (Hr & _); rewrite H in Hr;
            simpl in Hr; rewrite Hr
        end; reflexivity.
Qed.

Lemma MultiQuery_replica (c : Client) (ctx : Context) (q : string) (w : World) :
  replica (MultiQuery c ctx q w).1.1 = replica c.
Proof.
  unfold MultiQuery. rewrite limitReached_eq.
  repeat case_match; simplify_eq; simpl;
    try match goal with
        | H : deferred ?e ?q ?c ?w = _ |- _ =>
            pose proof (deferred_fields e q c w) as (Hr & _); rewrite H in Hr;
            simpl in Hr; rewrite Hr
        end; reflexivity.
Qed.

(** With a replica attached [MultiQuery] still runs on the primary: the
    primary's pool serves the statement and the replica is not touched,
    where [Query] leaves the primary's pool alone and has the replica's
    serve it. *)
Lemma MultiQuery_runs_on_primary :
  replica Sample.primary = Some (NewClient Sample.healthy)
  ∧ (let '(c', w', res) :=
       MultiQuery Sample.primary Background "SELECT 1; SELECT 2" Sample.w0 in
     calls (db c') = 1%nat
     ∧ (calls ∘ db <$> replica c') = Some 0%nat
     ∧ totalSuccessQueries (s c') = 1
     ∧ (totalSuccessQueries ∘ s <$> replica c') = Some 0)
  ∧ (let '(c', w', res) :=
       Query Sample.primary Background "SELECT 1" Sample.w0 in
     calls (db c') = 0%nat
     ∧ (calls ∘ db <$> replica c') = Some 1%nat).
Proof. vm_compute. repeat split. Qed.

(** C8 (amended). With a replica attached, [Query] and [Call] are handed
    to the replica: the primary's pool, counters and relay are left as they
    were and the outcome is that of the replica's own [Query]. [Exec],
    [MultiQuery] and [MultiCall] are not redirected: they leave the replica
    as it was. Without a replica [Query] runs on the client itself. *)
Theorem replica_routing
  (c : Client) (ctx : Context) (query procedure : string)
  (args : list string) (w : World) :
  match replica c with
  | Some rc =>
      (let '(c', w', res) := Query c ctx query w in
       db c' = db c ∧ s c' = s c ∧ r c' = r c ∧ config c' = config c
       ∧ replica c' = Some (Query rc ctx query w).1.1
       ∧ w' = (Query rc ctx query w).1.2
       ∧ res = (Query rc ctx query w).2)
      ∧ (let '(c', w', res) := Call c ctx procedure args w in
         db c' = db c ∧ s c' = s c ∧ r c' = r c ∧ config c' = config c
         ∧ replica c' = Some (Call rc ctx procedure args w).1.1
         ∧ w' = (Call rc ctx procedure args w).1.2
         ∧ res = (Call rc ctx procedure args w).2)
      ∧ replica (Exec c ctx query w).1.1 = Some rc
      ∧ replica (MultiQuery c ctx query w).1.1 = Some rc
      ∧ replica (MultiCall c ctx procedure args w).1.1 = Some rc
  | None =>
      Query c ctx query w = queryOnPrimary c ctx query w
      ∧ Call c ctx procedure args w
        = queryOnPrimary c ctx (call procedure (length args)) w
      ∧ replica (Exec c ctx query w).1.1 = None
      ∧ replica (MultiQuery c ctx query w).1.1 = None
      ∧ replica (MultiCall c ctx procedure args w).1.1 = None
  end.
Proof.
  destruct (replica c) as [rc|] eqn:Hrep.
  - split; [|split].
    + rewrite (Query_replica c rc) by done. done.
    + unfold Call. rewrite (Query_replica c rc) by done. done.
    + unfold MultiCall.
      by rewrite Exec_replica, !MultiQuery_replica.
  - unfold Call, MultiCall.
    rewrite !Query_no_replica by done.
    by rewrite Exec_replica, !MultiQuery_replica.
Qed.

(** ** The in-progress counter *)

















(** ** Retry on deadlock *)

Lemma IsErrorCode_deadlock (e : goerror) :
  IsErrorCode (Some e) ErrMySQLDeadlock = is_deadlock e.
Proof.
  destruct e as [| | |number msg| |msg]; try reflexivity.
  unfold IsErrorCode, is_deadlock, ErrMySQLDeadlock.
  change (uint16 1213) with 1213.
  case_bool_decide as Hn; [subst; reflexivity|].
  symmetry. by apply Z.eqb_neq.
Qed.

(** Error 1213 and nothing else is classified as a deadlock. *)
Lemma is_deadlock_1213 (e : goerror) :
  is_deadlock e = true ↔ ∃ msg, e = MySQLError 1213 msg.
Proof.
  destruct e as [| | |number msg| |msg]; simpl;
    try (split; [discriminate|intros [? ?]; discriminate]).
  rewrite Z.eqb_eq. split; [intros ->; eauto|intros [? [= -> _]]; done].
Qed.

Lemma execLoop_step (n : nat) (cfg : Config) (ctx : Context) (q : string)
  (d : DB) (w : World) (res : option sqlResult) (err : option goerror) :
  execLoop (S n) cfg ctx q d w res err
  = let rep := execReply d (calls d) in
    let w1 := elapse (latency d (calls d)) (emit (EvExecContext q (deadline ctx)) w) in
    if execDeadlocked rep
    then execLoop n cfg ctx q (served d)
           (Sleep (RetryOnDeadlockDelay cfg) (log Warning "deadlock" w1))
           (execResult rep) (execError rep)
    else (served d, w1, execResult rep, execError rep).
Proof.
  simpl. destruct (execReply d (calls d)) as [sr|e]; simpl; [reflexivity|].
  rewrite IsErrorCode_deadlock. reflexivity.
Qed.

Lemma queryLoop_step (n : nat) (cfg : Config) (ctx : Context) (q : string)
  (d : DB) (w : World) (rows : option Rows) (err : option goerror) :
  queryLoop (S n) cfg ctx q d w rows err
  = let rep := queryReply d (calls d) in
    let w1 := elapse (latency d (calls d)) (emit (EvQueryContext q (deadline ctx)) w) in
    if queryDeadlocked rep
    then queryLoop n cfg ctx q (served d)
           (Sleep (RetryOnDeadlockDelay cfg) w1)
           (queryRows rep) (queryError rep)
    else (served d, w1, queryRows rep, queryError rep).
Proof.
  simpl. destruct (queryReply d (calls d)) as [rs|e]; simpl; [reflexivity|].
  rewrite IsErrorCode_deadlock. reflexivity.
Qed.

(** The retry loop on a pool that answers its next [n] calls with a
    deadlock: [n] passes, each an attempt followed by the sleep, and then
    whatever the remaining [m] passes do. *)
Lemma execLoop_prefix (cfg : Config) (ctx : Context) (q : string)
  (m n : nat) :
  ∀ (d : DB) (w : World) (res : option sqlResult) (err : option goerror),
    (∀ j : nat, (j < n)%nat →
                execDeadlocked (execReply d (calls d + j)%nat) = true) →
    ∃ (d' : DB) (w' : World),
      execLoop (n + m) cfg ctx q d w res err
      = execLoop m cfg ctx q d' w'
          (match n with O => res | S _ => None end)
          (match n with
           | O => err
           | S n' => execError (execReply d (calls d + n')%nat)
           end)
      ∧ calls d' = (calls d + n)%nat
      ∧ execReply d' = execReply d
      ∧ latency d' = latency d
      ∧ trace w'
        = trace w
          ++ mjoin (replicate n (execCycle q (deadline ctx)
                                   (RetryOnDeadlockDelay cfg))).
Proof.
  induction n as [|n IH]; intros d w res err Hall.
  { exists d, w. rewrite Nat.add_0_r, app_nil_r. done. }
  change (S n + m)%nat with (S (n + m)). rewrite execLoop_step. cbv zeta.
  pose proof (Hall 0%nat ltac:(lia)) as H0. rewrite Nat.add_0_r in H0.
  rewrite H0.
  destruct (IH (served d)
              (Sleep (RetryOnDeadlockDelay cfg)
                 (log Warning "deadlock"
                    (elapse (latency d (calls d))
                       (emit (EvExecContext q (deadline ctx)) w))))
              (execResult (execReply d (calls d)))
              (execError (execReply d (calls d))))
    as (d' & w' & Heq & Hcalls & Hrep & Hlat & Htr).
  { intros j Hj. simpl. specialize (Hall (S j) ltac:(lia)).
    by rewrite Nat.add_succ_r in Hall. }
  exists d', w'. rewrite Heq.
  split; [|split; [simpl in Hcalls; lia|split; [done|split; [done|]]]].
  - destruct n as [|n].
    + rewrite Nat.add_0_r.
      destruct (execReply d (calls d)) as [sr|e]; [done|reflexivity].
    + simpl. by rewrite Nat.add_succ_r.
  - rewrite Htr. simpl. by rewrite <- !app_assoc.
Qed.

Lemma queryLoop_prefix (cfg : Config) (ctx : Context) (q : string)
  (m n : nat) :
  ∀ (d : DB) (w : World) (rows : option Rows) (err : option goerror),
    (∀ j : nat, (j < n)%nat →
                queryDeadlocked (queryReply d (calls d + j)%nat) = true) →
    ∃ (d' : DB) (w' : World),
      queryLoop (n + m) cfg ctx q d w rows err
      = queryLoop m cfg ctx q d' w'
          (match n with O => rows | S _ => None end)
          (match n with
           | O => err
           | S n' => queryError (queryReply d (calls d + n')%nat)
           end)
      ∧ calls d' = (calls d + n)%nat
      ∧ queryReply d' = queryReply d
      ∧ execReply d' = execReply d
      ∧ latency d' = latency d
      ∧ trace w'
        = trace w
          ++ mjoin (replicate n (queryCycle q (deadline ctx)
                                   (RetryOnDeadlockDelay cfg))).
Proof.
  induction n as [|n IH]; intros d w rows err Hall.
  { exists d, w. rewrite Nat.add_0_r, app_nil_r. done. }
  change (S n + m)%nat with (S (n + m)). rewrite queryLoop_step. cbv zeta.
  pose proof (Hall 0%nat ltac:(lia)) as H0. rewrite Nat.add_0_r in H0.
  rewrite H0.
  destruct (IH (served d)
              (Sleep (RetryOnDeadlockDelay cfg)
                 (elapse (latency d (calls d))
                    (emit (EvQueryContext q (deadline ctx)) w)))
              (queryRows (queryReply d (calls d)))
              (queryError (queryReply d (calls d))))
    as (d' & w' & Heq & Hcalls & Hrep & Hexec & Hlat & Htr).
  { intros j Hj. simpl. specialize (Hall (S j) ltac:(lia)).
    by rewrite Nat.add_succ_r in Hall. }
  exists d', w'. rewrite Heq.
  split; [|split; [simpl in Hcalls; lia|
           split; [done|split; [done|split; [done|]]]]].
  - destruct n as [|n].
    + rewrite Nat.add_0_r.
      destruct (queryReply d (calls d)) as [rs|e]; [done|reflexivity].
    + simpl. by rewrite Nat.add_succ_r.
  - rewrite Htr. simpl. by rewrite <- !app_assoc.
Qed.

Lemma start_free (t : relay) :
  (held t < cap (relayChan t))%nat →
  start t = Some (mkRelay (mkChan (buf (relayChan t) ++ [true])
                                  (cap (relayChan t)))).
Proof.
  unfold held, start, send. intros Hfree. by rewrite bool_decide_eq_true_2.
Qed.

Lemma attempts_retry (cfg : Config) :
  RetryOnDeadlock cfg = true →
  0 ≤ RetryOnDeadlockCount cfg ≤ int64_max - 1 →
  Z.to_nat (attempts cfg) = (Z.to_nat (RetryOnDeadlockCount cfg) + 1)%nat.
Proof.
  intros Hretry Hcount. unfold attempts. rewrite Hretry.
  rewrite wrap64_id; [lia|].
  unfold in_int64, int64_min, int64_max in *. lia.
Qed.

Lemma cycles_snoc {A} (n : nat) (cycle : list A) :
  mjoin (replicate (S n) cycle) = mjoin (replicate n cycle) ++ cycle.
Proof.
  rewrite replicate_S_end, join_app. simpl. by rewrite app_nil_r.
Qed.

Section Retry.

Context (c : Client) (ctx : Context) (query : string) (w : World).
Context (Hretry : RetryOnDeadlock (config c) = true).
Context (Hcount : 0 ≤ RetryOnDeadlockCount (config c) ≤ int64_max - 1).
Context (Hadmit : (limitReached c w).2 = None).
Context (Hfree : (held (r c) < cap (relayChan (r c)))%nat).

Let retries : nat := Z.to_nat (RetryOnDeadlockCount (config c)).
Let dl : option Z := deadline (withConfigTimeout (config c) ctx w).
Let delay : Z := RetryOnDeadlockDelay (config c).

(** [Exec] past the limit check and the relay, as the hypotheses of the
    section let it pass. *)
Lemma Exec_admitted :
  Exec c ctx query w
  = let c2 := with_r (with_s c (addInProgress 1 (s c)))
                (mkRelay (mkChan (buf (relayChan (r c)) ++ [true])
                                 (cap (relayChan (r c))))) in
    let w2 := emit EvStart (emit (EvInProgress 1) w) in
    let '(d3, w3, result, err) :=
      execLoop (retries + 1) (config c)
        (withConfigTimeout (config c) ctx w) query (db c) w2 None None in
    let q := mkQueryStats query (now w3 - now w) 0 0 in
    let c3 := with_s (with_db c2 d3) (sample (s c2) q) in
    let w4 := emit (EvSample q) w3 in
    let leave (w : World) (res : reply Meta) :=
      let c4 := with_r c3 (end_ (r c3)) in
      let '(c5, w5) := deferred err query c4 (emit EvEnd w) in
      (c5, w5, res) in
    match err, result with
    | Some e, _ => leave w4 (Returned (None, Some e))
    | None, None => leave w4 Panicked
    | None, Some res =>
        leave (log Debug query w4)
          (Returned (Some (mkMeta (LastInsertId res) (RowsAffected_ res)
                                  (now w3 - now w)), None))
    end.
Proof using Hretry Hcount Hadmit Hfree.
  unfold Exec. rewrite limitReached_eq in Hadmit |- *.
  cbn [snd] in Hadmit.
  destruct (_ >? _); [discriminate|].
  cbn [r with_s with_r config db s].
  rewrite (start_free _ Hfree), (attempts_retry _ Hretry Hcount).
  reflexivity.
Qed.

(** Every attempt of [Exec] runs into a deadlock. *)
Lemma Exec_all_deadlock :
  (∀ j : nat, (j ≤ retries)%nat →
     execDeadlocked (execReply (db c) (calls (db c) + j)%nat) = true) →
  let '(c', w', res) := Exec c ctx query w in
  calls (db c') = (calls (db c) + S retries)%nat
  ∧ (∃ msg : string,
       execReply (db c) (calls (db c) + retries)%nat
       = ExecErr (MySQLError 1213 msg)
       ∧ res = Returned (None, Some (MySQLError 1213 msg)))
  ∧ trace w'
    = trace w ++ [EvInProgress 1; EvStart]
      ++ mjoin (replicate (S retries) (execCycle query dl delay))
      ++ [EvSample (mkQueryStats query (now w' - now w) 0 0);
          EvEnd; EvInProgress (-1); EvLog Error query].
Proof using Hretry Hcount Hadmit Hfree.
  intros Hall. rewrite Exec_admitted, cycles_snoc. cbv zeta.
  destruct (execLoop_prefix (config c) (withConfigTimeout (config c) ctx w)
              query 1 retries (db c) (emit EvStart (emit (EvInProgress 1) w))
              None None) as (d' & w' & -> & Hcalls & Hrep & Hlat & Htr).
  { intros j Hj. apply Hall. lia. }
  rewrite execLoop_step. cbv zeta. rewrite Hcalls, Hrep.
  rewrite (Hall retries) by lia.
  pose proof (Hall retries ltac:(lia)) as Hlast.
  destruct (execReply (db c) (calls (db c) + retries)) as [sr|e]; [done|].
  apply is_deadlock_1213 in Hlast as [msg ->].
  simpl. split; [lia|]. split; [by exists msg|].
  rewrite Htr. simpl. rewrite <- !app_assoc. reflexivity.
Qed.

(** The first [k] attempts of [Exec] run into a deadlock and the next one
    does not. *)
Lemma Exec_settles (k : nat) :
  (k ≤ retries)%nat →
  (∀ j : nat, (j < k)%nat →
     execDeadlocked (execReply (db c) (calls (db c) + j)%nat) = true) →
  execDeadlocked (execReply (db c) (calls (db c) + k)%nat) = false →
  let '(c', w', res) := Exec c ctx query w in
  calls (db c') = (calls (db c) + S k)%nat
  ∧ res = match execReply (db c) (calls (db c) + k)%nat with
          | ExecErr e => Returned (None, Some e)
          | ExecOk sr =>
              Returned (Some (mkMeta (LastInsertId sr) (RowsAffected_ sr)
                                     (now w' - now w)), None)
          end
  ∧ trace w'
    = trace w ++ [EvInProgress 1; EvStart]
      ++ mjoin (replicate k (execCycle query dl delay))
      ++ [EvExecContext query dl;
          EvSample (mkQueryStats query (now w' - now w) 0 0)]
      ++ match execReply (db c) (calls (db c) + k)%nat with
         | ExecErr _ => [EvEnd; EvInProgress (-1); EvLog Error query]
         | ExecOk _ => [EvLog Debug query; EvEnd; EvInProgress (-1)]
         end.
Proof using Hretry Hcount Hadmit Hfree.
  intros Hk Hpre Hlast. rewrite Exec_admitted. cbv zeta.
  replace (retries + 1)%nat with (k + S (retries - k))%nat by lia.
  destruct (execLoop_prefix (config c) (withConfigTimeout (config c) ctx w)
              query (S (retries - k)) k (db c)
              (emit EvStart (emit (EvInProgress 1) w))
              None None Hpre) as (d' & w' & -> & Hcalls & Hrep & Hlat & Htr).
  rewrite execLoop_step. cbv zeta. rewrite Hcalls, Hrep, Hlast.
  destruct (execReply (db c) (calls (db c) + k)) as [sr|e]; simpl;
    (split; [lia|]); (split; [reflexivity|]);
    rewrite Htr; simpl; rewrite <- !app_assoc; reflexivity.
Qed.

Let sync : bool := checkIfSyncNeeded ctx.
Let offset : nat := if sync then 1%nat else 0%nat.
Let syncOn : list event :=
  if sync then [EvExecContext "SET SESSION wsrep_sync_wait=1" dl] else [].
Let syncOff : list event :=
  if sync then [EvExecContext "SET SESSION wsrep_sync_wait=0" dl] else [].

(** [Query] on the client itself, past the limit check and the relay. *)
Lemma Query_admitted :
  replica c = None →
  Query c ctx query w
  = let c2 := with_r (with_s c (addInProgress 1 (s c)))
                (mkRelay (mkChan (buf (relayChan (r c)) ++ [true])
                                 (cap (relayChan (r c))))) in
    let w2 := emit EvStart (emit (EvInProgress 1) w) in
    let ctx1 := withConfigTimeout (config c) ctx w in
    let '(d2, w2') :=
      if sync
      then (served (db c),
            elapse (latency (db c) (calls (db c)))
              (emit (EvExecContext "SET SESSION wsrep_sync_wait=1" dl) w2))
      else (db c, w2) in
    let '(d3, w3, rows, err) :=
      queryLoop (retries + 1) (config c) ctx1 query d2 w2' None None in
    let q := mkQueryStats query (now w3 - now w) 0 0 in
    let c3 := with_s (with_db c2 d3) (sample (s c2) q) in
    let w4 := emit (EvSample q) w3 in
    let leave (closeRows : bool) (err : option goerror) (w : World)
              (res : reply Results) :=
      let w5 := if closeRows then emit EvRowsClose w else w in
      let '(d6, w6) :=
        if sync
        then (served d3,
              elapse (latency d3 (calls d3))
                (emit (EvExecContext "SET SESSION wsrep_sync_wait=0" dl) w5))
        else (d3, w5) in
      let c7 := with_r (with_db c3 d6) (end_ (r c3)) in
      let '(c8, w8) := deferred err query c7 (emit EvEnd w6) in
      (c8, w8, res) in
    match err, rows with
    | Some e, _ => leave false err w4 (Returned (None, Some e))
    | None, None => leave true err w4 Panicked
    | None, Some rs =>
        match newResultsFromSqlRows (current rs) with
        | inl e => leave true (Some e) w4 (Returned (None, Some e))
        | inr results =>
            leave true None (log Debug query w4)
              (Returned (Some (withQueryTime results (now w3 - now w)), None))
        end
    end.
Proof using Hretry Hcount Hadmit Hfree.
  intros Hrep. rewrite Query_no_replica by done.
  unfold queryOnPrimary. rewrite limitReached_eq in Hadmit |- *.
  cbn [snd] in Hadmit.
  destruct (_ >? _); [discriminate|].
  cbn [r with_s with_r config db s].
  rewrite (start_free _ Hfree), (attempts_retry _ Hretry Hcount).
  assert (Hsync : checkIfSyncNeeded
                    (withConfigTimeout (config c) ctx (emit (EvInProgress 1) w))
                  = sync).
  { unfold withConfigTimeout. by destruct (_ >? _). }
  rewrite Hsync. unfold ExecContext. by destruct sync.
Qed.

(** Every attempt of [Query] runs into a deadlock. *)
Lemma Query_all_deadlock :
  replica c = None →
  (∀ j : nat, (j ≤ retries)%nat →
     queryDeadlocked (queryReply (db c) (calls (db c) + offset + j)%nat)
     = true) →
  let '(c', w', res) := Query c ctx query w in
  calls (db c') = (calls (db c) + offset + S retries + offset)%nat
  ∧ (∃ msg : string,
       queryReply (db c) (calls (db c) + offset + retries)%nat
       = QueryErr (MySQLError 1213 msg)
       ∧ res = Returned (None, Some (MySQLError 1213 msg)))
  ∧ ∃ t : Z,
      trace w'
      = trace w ++ [EvInProgress 1; EvStart] ++ syncOn
        ++ mjoin (replicate (S retries) (queryCycle query dl delay))
        ++ [EvSample (mkQueryStats query t 0 0)] ++ syncOff
        ++ [EvEnd; EvInProgress (-1); EvLog Error query].
Proof using Hretry Hcount Hadmit Hfree.
  intros Hrep Hall. rewrite Query_admitted by done.
  rewrite cycles_snoc. cbv zeta.
  unfold offset, syncOn, syncOff in *. destruct sync.
  - destruct (queryLoop_prefix (config c) (withConfigTimeout (config c) ctx w)
                query 1 retries (served (db c))
                (elapse (latency (db c) (calls (db c)))
                   (emit (EvExecContext "SET SESSION wsrep_sync_wait=1" dl)
                      (emit EvStart (emit (EvInProgress 1) w))))
                None None) as (d' & w' & -> & Hcalls & Hq & He & Hlat & Htr).
    { intros j Hj. specialize (Hall j ltac:(lia)). simpl.
      by replace (S (calls (db c) + j)) with (calls (db c) + 1 + j)%nat
        by lia. }
    rewrite queryLoop_step. cbv zeta. rewrite Hcalls, Hq.
    pose proof (Hall retries ltac:(lia)) as Hlast.
    change (queryReply (served (db c))) with (queryReply (db c)).
    replace (calls (served (db c)) + retries)%nat
      with (calls (db c) + 1 + retries)%nat by (simpl; lia).
    rewrite Hlast.
    destruct (queryReply (db c) (calls (db c) + 1 + retries))
      as [rs|e] eqn:Hr; [done|].
    apply is_deadlock_1213 in Hlast as [msg ->].
    simpl. split; [simpl in Hcalls; lia|]. split; [by exists msg|].
    eexists. rewrite Htr. simpl. rewrite <- !app_assoc. reflexivity.
  - destruct (queryLoop_prefix (config c) (withConfigTimeout (config c) ctx w)
                query 1 retries (db c)
                (emit EvStart (emit (EvInProgress 1) w))
                None None) as (d' & w' & -> & Hcalls & Hq & He & Hlat & Htr).
    { intros j Hj. rewrite <- (Nat.add_0_r (calls (db c))). apply Hall. lia. }
    rewrite queryLoop_step. cbv zeta. rewrite Hcalls, Hq.
    pose proof (Hall retries ltac:(lia)) as Hlast.
    rewrite Nat.add_0_r in Hlast. rewrite Hlast.
    destruct (queryReply (db c) (calls (db c) + retries))
      as [rs|e] eqn:Hr; [done|].
    apply is_deadlock_1213 in Hlast as [msg ->].
    simpl. split; [lia|]. rewrite Nat.add_0_r, Hr. split; [by exists msg|].
    eexists. rewrite Htr. simpl. rewrite <- !app_assoc. reflexivity.
Qed.

(** The first [k] attempts of [Query] run into a deadlock and the next one
    does not. *)
Lemma Query_settles (k : nat) :
  replica c = None →
  (k ≤ retries)%nat →
  (∀ j : nat, (j < k)%nat →
     queryDeadlocked (queryReply (db c) (calls (db c) + offset + j)%nat)
     = true) →
  queryDeadlocked (queryReply (db c) (calls (db c) + offset + k)%nat) = false →
  let '(c', w', res) := Query c ctx query w in
  let rep := queryReply (db c) (calls (db c) + offset + k)%nat in
  calls (db c') = (calls (db c) + offset + S k + offset)%nat
  ∧ match rep with
    | QueryErr e => res = Returned (None, Some e)
    | QueryOk rs =>
        match newResultsFromSqlRows (current rs) with
        | inl e => res = Returned (None, Some e)
        | inr results =>
            ∃ t : Z, res = Returned (Some (withQueryTime results t), None)
        end
    end
  ∧ ∃ t : Z,
      trace w'
      = trace w ++ [EvInProgress 1; EvStart] ++ syncOn
        ++ mjoin (replicate k (queryCycle query dl delay))
        ++ [EvQueryContext query dl; EvSample (mkQueryStats query t 0 0)]
        ++ match rep with
           | QueryErr _ =>
               syncOff ++ [EvEnd; EvInProgress (-1); EvLog Error query]
           | QueryOk rs =>
               match newResultsFromSqlRows (current rs) with
               | inl _ =>
                   [EvRowsClose] ++ syncOff
                   ++ [EvEnd; EvInProgress (-1); EvLog Error query]
               | inr _ =>
                   [EvLog Debug query; EvRowsClose] ++ syncOff
                   ++ [EvEnd; EvInProgress (-1)]
               end
           end.
Proof using Hretry Hcount Hadmit Hfree.
  intros Hrep Hk Hpre Hlast. rewrite Query_admitted by done. cbv zeta.
  replace (retries + 1)%nat with (k + S (retries - k))%nat by lia.
  unfold offset, syncOn, syncOff in *. destruct sync.
  - destruct (queryLoop_prefix (config c) (withConfigTimeout (config c) ctx w)
                query (S (retries - k)) k (served (db c))
                (elapse (latency (db c) (calls (db c)))
                   (emit (EvExecContext "SET SESSION wsrep_sync_wait=1" dl)
                      (emit EvStart (emit (EvInProgress 1) w))))
                None None) as (d' & w' & -> & Hcalls & Hq & He & Hlat & Htr).
    { intros j Hj. specialize (Hpre j Hj). simpl.
      by replace (S (calls (db c) + j)) with (calls (db c) + 1 + j)%nat
        by lia. }
    rewrite queryLoop_step. cbv zeta. rewrite Hcalls, Hq.
    change (queryReply (served (db c))) with (queryReply (db c)).
    replace (calls (served (db c)) + k)%nat
      with (calls (db c) + 1 + k)%nat by (simpl; lia).
    rewrite Hlast. simpl in Hcalls.
    destruct (queryReply (db c) (calls (db c) + 1 + k)) as [rs|e];
      simpl; cbv zeta;
      [destruct (newResultsFromSqlRows (current rs)); simpl|];
      (split; [lia|]); (split; [by eauto|]);
      eexists; rewrite Htr; simpl; rewrite <- !app_assoc; reflexivity.
  - destruct (queryLoop_prefix (config c) (withConfigTimeout (config c) ctx w)
                query (S (retries - k)) k (db c)
                (emit EvStart (emit (EvInProgress 1) w))
                None None) as (d' & w' & -> & Hcalls & Hq & He & Hlat & Htr).
    { intros j Hj. specialize (Hpre j Hj).
      by rewrite Nat.add_0_r in Hpre. }
    rewrite queryLoop_step. cbv zeta. rewrite Hcalls, Hq.
    rewrite !(Nat.add_0_r (calls (db c))) in Hlast |- *. rewrite Hlast.
    destruct (queryReply (db c) (calls (db c) + k)) as [rs|e];
      simpl; cbv zeta;
      [destruct (newResultsFromSqlRows (current rs)); simpl|];
      (split; [lia|]); (split; [by eauto|]);
      eexists; rewrite Htr; simpl; rewrite <- !app_assoc; reflexivity.
Qed.

(** C3. With [RetryOnDeadlock] set and a [RetryOnDeadlockCount] of at
    least 0 (and below the largest [int]), a call that is admitted (the
    limit check passes and a ticket is free) behaves as follows, for
    [Exec] and for [Query] on a client without replica alike. If every
    attempt fails with error 1213, the statement is attempted exactly
    [RetryOnDeadlockCount + 1] times, each attempt followed by a sleep of
    [RetryOnDeadlockDelay], and the error of the last attempt is returned.
    If the first [k] attempts fail with error 1213 and the next one does
    not, the statement is attempted exactly [k + 1] times and the outcome
    of that attempt is returned: a success ends the loop at once, and with
    [k = 0] any other error is attempted exactly once. Only error 1213 is
    classified as a deadlock. *)
Theorem deadlock_retry :
  (∀ e : goerror,
     IsErrorCode (Some e) ErrMySQLDeadlock = true
     ↔ ∃ msg : string, e = MySQLError 1213 msg)
  ∧ ((∀ j : nat, (j ≤ retries)%nat →
        execDeadlocked (execReply (db c) (calls (db c) + j)%nat) = true) →
     let '(c', w', res) := Exec c ctx query w in
     calls (db c') = (calls (db c) + S retries)%nat
     ∧ (∃ msg : string,
          execReply (db c) (calls (db c) + retries)%nat
          = ExecErr (MySQLError 1213 msg)
          ∧ res = Returned (None, Some (MySQLError 1213 msg)))
     ∧ trace w'
       = trace w ++ [EvInProgress 1; EvStart]
         ++ mjoin (replicate (S retries) (execCycle query dl delay))
         ++ [EvSample (mkQueryStats query (now w' - now w) 0 0);
             EvEnd; EvInProgress (-1); EvLog Error query])
  ∧ (∀ k : nat,
       (k ≤ retries)%nat →
       (∀ j : nat, (j < k)%nat →
          execDeadlocked (execReply (db c) (calls (db c) + j)%nat) = true) →
       execDeadlocked (execReply (db c) (calls (db c) + k)%nat) = false →
       let '(c', w', res) := Exec c ctx query w in
       calls (db c') = (calls (db c) + S k)%nat
       ∧ res = match execReply (db c) (calls (db c) + k)%nat with
               | ExecErr e => Returned (None, Some e)
               | ExecOk sr =>
                   Returned (Some (mkMeta (LastInsertId sr) (RowsAffected_ sr)
                                          (now w' - now w)), None)
               end
       ∧ trace w'
         = trace w ++ [EvInProgress 1; EvStart]
           ++ mjoin (replicate k (execCycle query dl delay))
           ++ [EvExecContext query dl;
               EvSample (mkQueryStats query (now w' - now w) 0 0)]
           ++ match execReply (db c) (calls (db c) + k)%nat with
              | ExecErr _ => [EvEnd; EvInProgress (-1); EvLog Error query]
              | ExecOk _ => [EvLog Debug query; EvEnd; EvInProgress (-1)]
              end)
  ∧ (replica c = None →
     (∀ j : nat, (j ≤ retries)%nat →
        queryDeadlocked (queryReply (db c) (calls (db c) + offset + j)%nat)
        = true) →
     let '(c', w', res) := Query c ctx query w in
     calls (db c') = (calls (db c) + offset + S retries + offset)%nat
     ∧ (∃ msg : string,
          queryReply (db c) (calls (db c) + offset + retries)%nat
          = QueryErr (MySQLError 1213 msg)
          ∧ res = Returned (None, Some (MySQLError 1213 msg)))
     ∧ ∃ t : Z,
         trace w'
         = trace w ++ [EvInProgress 1; EvStart] ++ syncOn
           ++ mjoin (replicate (S retries) (queryCycle query dl delay))
           ++ [EvSample (mkQueryStats query t 0 0)] ++ syncOff
           ++ [EvEnd; EvInProgress (-1); EvLog Error query])
  ∧ (replica c = None →
     ∀ k : nat,
       (k ≤ retries)%nat →
       (∀ j : nat, (j < k)%nat →
          queryDeadlocked (queryReply (db c) (calls (db c) + offset + j)%nat)
          = true) →
       queryDeadlocked (queryReply (db c) (calls (db c) + offset + k)%nat)
       = false →
       let '(c', w', res) := Query c ctx query w in
       let rep := queryReply (db c) (calls (db c) + offset + k)%nat in
       calls (db c') = (calls (db c) + offset + S k + offset)%nat
       ∧ match rep with
         | QueryErr e => res = Returned (None, Some e)
         | QueryOk rs =>
             match newResultsFromSqlRows (current rs) with
             | inl e => res = Returned (None, Some e)
             | inr results =>
                 ∃ t : Z, res = Returned (Some (withQueryTime results t), None)
             end
         end
       ∧ ∃ t : Z,
           trace w'
           = trace w ++ [EvInProgress 1; EvStart] ++ syncOn
             ++ mjoin (replicate k (queryCycle query dl delay))
             ++ [EvQueryContext query dl; EvSample (mkQueryStats query t 0 0)]
             ++ match rep with
                | QueryErr _ =>
                    syncOff ++ [EvEnd; EvInProgress (-1); EvLog Error query]
                | QueryOk rs =>
                    match newResultsFromSqlRows (current rs) with
                    | inl _ =>
                        [EvRowsClose] ++ syncOff
                        ++ [EvEnd; EvInProgress (-1); EvLog Error query]
                    | inr _ =>
                        [EvLog Debug query; EvRowsClose] ++ syncOff
                        ++ [EvEnd; EvInProgress (-1)]
                    end
                end).
Proof using Hretry Hcount Hadmit Hfree.
  split.
  { intros e. rewrite IsErrorCode_deadlock. apply is_deadlock_1213. }
  split; [exact Exec_all_deadlock|].
  split; [exact Exec_settles|].
  split; [exact Query_all_deadlock|].
  intros Hrep k. by apply Query_settles.
Qed.

End Retry.

Lemma deadlock_retry_witness :
  RetryOnDeadlock (config Sample.stuck) = true
  ∧ 0 ≤ RetryOnDeadlockCount (config Sample.stuck) ≤ int64_max - 1
  ∧ (limitReached Sample.stuck Sample.w0).2 = None
  ∧ (held (r Sample.stuck) < cap (relayChan (r Sample.stuck)))%nat
  ∧ (let '(c', w', res) :=
       Exec Sample.stuck Background "UPDATE t SET x = 1" Sample.w0 in
     calls (db c') = 6%nat
     ∧ res = Returned (None, Some Sample.deadlock)
     ∧ occurrences (EvSleep 10000000) (trace w') = 6%nat).
Proof.
  assert (H1 : RetryOnDeadlock (config Sample.stuck) = true) by reflexivity.
  assert (H2 : 0 ≤ RetryOnDeadlockCount (config Sample.stuck) ≤ int64_max - 1)
    by (vm_compute; split; discriminate).
  assert (H3 : (limitReached Sample.stuck Sample.w0).2 = None) by reflexivity.
  assert (H4 : (held (r Sample.stuck) < cap (relayChan (r Sample.stuck)))%nat)
    by (vm_compute; lia).
  do 4 (split; [assumption|]).
  destruct (deadlock_retry Sample.stuck Background "UPDATE t SET x = 1"
              Sample.w0 H1 H2 H3 H4) as (_ & Hall & _).
  specialize (Hall (λ j _, eq_refl)).
  destruct (Exec Sample.stuck Background "UPDATE t SET x = 1" Sample.w0)
    as [[c' w'] res].
  destruct Hall as (Hcalls & (msg & Hmsg & ->) & Htrace).
  split; [exact Hcalls|]. split.
  - vm_compute in Hmsg. by injection Hmsg as <-.
  - rewrite Htrace. vm_compute. reflexivity.
Defined.

(** * Further properties *)

(** ** The relay on its own *)

(** X1. On a relay that holds no more tickets than its capacity, [start]
    goes through exactly when a slot is free and then holds one ticket
    more, within the capacity; it parks exactly when the relay is full.
    [end] gives one ticket back, does nothing on a relay that holds none,
    and never changes the capacity; a [start] followed by an [end] leaves
    the number of held tickets as it was. *)
Theorem relay_tickets_within_capacity (t : relay)
  (Hcap : (held t ≤ cap (relayChan t))%nat) :
  (start t = None ↔ held t = cap (relayChan t))
  ∧ (∀ t' : relay, start t = Some t' →
       held t' = S (held t)
       ∧ (held t' ≤ cap (relayChan t'))%nat
       ∧ cap (relayChan t') = cap (relayChan t)
       ∧ held (end_ t') = held t)
  ∧ held (end_ t) = (held t - 1)%nat
  ∧ cap (relayChan (end_ t)) = cap (relayChan t)
  ∧ (held t = 0%nat → end_ t = t).
Proof.
  destruct t as [[b n]]. unfold held, start, send, end_, try_recv in *.
  simpl in *. split; [|split; [|split; [|split]]].
  - case_bool_decide; split; intros; simplify_eq; done || lia.
  - intros t' Ht'. case_bool_decide; simplify_eq. simpl.
    rewrite length_app. simpl. repeat split; try lia.
    destruct b; simpl; [lia|]. rewrite length_app. simpl. lia.
  - destruct b; simpl; lia.
  - by destruct b.
  - by destruct b.
Qed.

Lemma relay_tickets_within_capacity_witness :
  (held (r Sample.c0_open) ≤ cap (relayChan (r Sample.c0_open)))%nat
  ∧ held (end_ (r Sample.c0_open)) = 0%nat
  ∧ end_ (end_ (r Sample.c0_open)) = end_ (r Sample.c0_open).
Proof.
  assert (H : (held (r Sample.c0_open) ≤ cap (relayChan (r Sample.c0_open)))%nat)
    by (vm_compute; lia).
  split; [exact H|].
  destruct (relay_tickets_within_capacity (r Sample.c0_open) H)
    as (_ & _ & Hend & _).
  split; [exact Hend|reflexivity].
Defined.

(** ** Tickets across a call *)

Lemma tickets_eq (c c' : Client) :
  replica c' = replica c → held (r c') = held (r c) → tickets c' = tickets c.
Proof.
  destruct c as [d rep cfg st rl], c' as [d' rep' cfg' st' rl']; simpl.
  by intros -> ->.
Qed.

Lemma start_end_held (t t' : relay) :
  start t = Some t' → held (end_ t') = held t.
Proof.
  destruct t as [[b n]]. unfold held, start, send, end_, try_recv. simpl.
  case_bool_decide; [|done]. intros [= <-]. simpl.
  destruct b; simpl; [done|]. rewrite length_app. simpl. lia.
Qed.

(** Closes a goal [tickets c' = tickets c] once the call has been run to
    one of its ways out; [Hst] is the equation of [start]. *)
Ltac solve_tickets Hst :=
  unfold deferred, log; repeat case_match; simplify_eq;
  (apply tickets_eq; simpl;
   [reflexivity | by rewrite ?(start_end_held _ _ Hst)]).

Lemma Exec_tickets (c : Client) (ctx : Context) (q : string) (w : World) :
  tickets (Exec c ctx q w).1.1 = tickets c.
Proof.
  unfold Exec. rewrite limitReached_eq.
  destruct (_ >? _); [solve_tickets I|].
  cbn [r with_s with_r config db s].
  destruct (start (r c)) as [r1|] eqn:Hst; [|solve_tickets I].
  destruct (execLoop _ _ _ _ _ _ _ _) as [[[d3 w3] result] err].
  solve_tickets Hst.
Qed.

Lemma MultiQuery_tickets (c : Client) (ctx : Context) (q : string) (w : World) :
  tickets (MultiQuery c ctx q w).1.1 = tickets c.
Proof.
  unfold MultiQuery. rewrite limitReached_eq.
  destruct (_ >? _); [solve_tickets I|].
  cbn [r with_s with_r config db s].
  destruct (start (r c)) as [r1|] eqn:Hst; [|solve_tickets I].
  destruct (queryLoop _ _ _ _ _ _ _ _) as [[[d3 w3] rows] err].
  solve_tickets Hst.
Qed.

Lemma queryOnPrimary_tickets (c : Client) (ctx : Context) (q : string)
  (w : World) :
  tickets (queryOnPrimary c ctx q w).1.1 = tickets c.
Proof.
  unfold queryOnPrimary. rewrite limitReached_eq.
  destruct (_ >? _); [solve_tickets I|].
  cbn [r with_s with_r config db s].
  destruct (start (r c)) as [r1|] eqn:Hst; [|solve_tickets I].
  destruct (checkIfSyncNeeded _); unfold ExecContext; cbv zeta;
    cbn [r with_s with_r with_db config db s fst snd];
    destruct (queryLoop _ _ _ _ _ _ _ _) as [[[d3 w3] rows] err];
    solve_tickets Hst.
Qed.

Lemma Query_tickets (ctx : Context) (q : string) (c : Client) :
  ∀ w : World, tickets (Query c ctx q w).1.1 = tickets c.
Proof.
  induction c as [d cfg st rl|d rc cfg st rl IH] using Client_chain_ind;
    intros w.
  - rewrite Query_no_replica by done. apply queryOnPrimary_tickets.
  - rewrite (Query_replica _ rc) by done. cbn [fst snd tickets].
    f_equal. apply IH.
Qed.

(** X2. [Exec], [Query] and [MultiQuery] leave the number of tickets held
    in the relay (of the client and of every replica behind it) as they
    found it, however they end: the overload path takes none, a call
    parked on [start] has taken none, and every return or panic past
    [start] gives back the one it took. *)
Theorem tickets_kept_by_calls
  (c : Client) (ctx : Context) (query : string) (w : World) :
  tickets (Exec c ctx query w).1.1 = tickets c
  ∧ tickets (Query c ctx query w).1.1 = tickets c
  ∧ tickets (MultiQuery c ctx query w).1.1 = tickets c.
Proof.
  split; [apply Exec_tickets|].
  split; [apply Query_tickets|apply MultiQuery_tickets].
Qed.

(** X3. A call that passes the limit check while the relay is full (as it
    always is when the capacity is 0) parks on [start]: the in-progress
    counter has been incremented and nothing else has happened, the pool
    has not been called and no sample was published. *)
Theorem full_relay_parks_the_call
  (c : Client) (ctx : Context) (query : string) (w : World)
  (Hadmit : (limitReached c w).2 = None)
  (Hfull : (cap (relayChan (r c)) ≤ held (r c))%nat) :
  let parked := (with_s c (addInProgress 1 (s c)), emit (EvInProgress 1) w) in
  Exec c ctx query w = (parked, Blocked)
  ∧ MultiQuery c ctx query w = (parked, Blocked)
  ∧ (replica c = None → Query c ctx query w = (parked, Blocked))
  ∧ (txFromCtx ctx = None → beginOnPrimary c ctx w = (parked, Blocked)).
Proof.
  assert (Hst : start (r c) = None).
  { unfold start, send, held in *. by rewrite bool_decide_eq_false_2 by lia. }
  rewrite limitReached_eq in Hadmit. cbn [snd] in Hadmit.
  cbv zeta. split; [|split; [|split]].
  - unfold Exec. rewrite limitReached_eq.
    destruct (_ >? _); [discriminate|].
    cbn [r with_s with_r config db s]. by rewrite Hst.
  - unfold MultiQuery. rewrite limitReached_eq.
    destruct (_ >? _); [discriminate|].
    cbn [r with_s with_r config db s]. by rewrite Hst.
  - intros Hrep. rewrite Query_no_replica by done.
    unfold queryOnPrimary. rewrite limitReached_eq.
    destruct (_ >? _); [discriminate|].
    cbn [r with_s with_r config db s]. by rewrite Hst.
  - intros Hctx. unfold beginOnPrimary. rewrite Hctx, limitReached_eq.
    destruct (_ >? _); [discriminate|].
    cbn [r with_s with_r config db s]. by rewrite Hst.
Qed.

Lemma full_relay_parks_the_call_witness :
  (limitReached More.unlimited Sample.w0).2 = None
  ∧ (cap (relayChan (r More.unlimited)) ≤ held (r More.unlimited))%nat
  ∧ (Exec More.unlimited Background "UPDATE t SET x = 1" Sample.w0).2 = Blocked
  ∧ calls (db (Exec More.unlimited Background "UPDATE t SET x = 1"
                 Sample.w0).1.1) = 0%nat.
Proof.
  assert (H1 : (limitReached More.unlimited Sample.w0).2 = None) by reflexivity.
  assert (H2 : (cap (relayChan (r More.unlimited)) ≤ held (r More.unlimited))%nat)
    by (vm_compute; lia).
  split; [exact H1|]. split; [exact H2|].
  destruct (full_relay_parks_the_call More.unlimited Background
              "UPDATE t SET x = 1" Sample.w0 H1 H2) as (-> & _).
  split; reflexivity.
Defined.

(** ** Begin *)

Lemma Begin_inherits (ctx : Context) (opts : option TxOptions) (p : TxPtr)
  (c : Client) :
  txFromCtx ctx = Some p →
  ∀ w : World, Begin c ctx opts w = (c, w, Returned (Some (inherited p), None)).
Proof.
  intros Hctx.
  assert (Hprim : ∀ c w, beginOnPrimary c ctx w
                         = (c, w, Returned (Some (inherited p), None))).
  { intros c' w. unfold beginOnPrimary. by rewrite Hctx. }
  induction c as [d cfg st rl|d rc cfg st rl IH] using Client_chain_ind;
    intros w; simpl.
  - apply Hprim.
  - destruct (match opts with Some o => ReadOnly o | None => false end).
    + by rewrite IH.
    + apply Hprim.
Qed.

(** X4. A context made by [WithContext] carries the transaction's handle,
    the innermost one when several were attached, and [Begin] with such a
    context returns that handle with a nil error and does nothing else,
    also when the call is redirected to a replica: no counter moves, no
    ticket is taken, the pool is not called, nothing is logged. *)
Theorem Begin_returns_the_context_transaction
  (c : Client) (t t' : Transaction) (ctx : Context) (opts : option TxOptions)
  (w : World) :
  txFromCtx (WithContext t ctx) = Some (self t)
  ∧ txFromCtx (WithContext t (WithContext t' ctx)) = Some (self t)
  ∧ Begin c (WithContext t ctx) opts w
    = (c, w, Returned (Some (inherited (self t)), None)).
Proof.
  split; [reflexivity|]. split; [reflexivity|].
  by apply Begin_inherits.
Qed.

(** X5. A [Begin] that opens its own transaction (no transaction in the
    context), passes the limit check and finds a free ticket calls the
    pool exactly once. When the pool refuses, the error is returned, the
    in-progress counter is back at its value before the call and no ticket
    is left held. When the pool opens a transaction, a new transaction
    object with no observers is returned and the in-progress counter stays
    one higher until the transaction ends: a [Commit] or [Rollback] with a
    context that carries no transaction brings it back. *)
Theorem Begin_opens_or_cleans_up
  (c : Client) (ctx : Context) (w : World)
  (Hctx : txFromCtx ctx = None)
  (Hadmit : (limitReached c w).2 = None)
  (Hfree : (held (r c) < cap (relayChan (r c)))%nat)
  (Hn : in_int64 (inProgressQueries (s c)))
  (Hinc : in_int64 (inProgressQueries (s c) + 1)) :
  let '(c', w', res) := beginOnPrimary c ctx w in
  calls (db c') = S (calls (db c))
  ∧ match beginReply (db c) (calls (db c)) with
    | BeginErr e =>
        res = Returned (None, Some e)
        ∧ inProgressQueries (s c') = inProgressQueries (s c)
        ∧ held (r c') = held (r c)
    | BeginOk dtx =>
        res = Returned (Some (opened (mkTransaction (nextTx w) dtx (config c)
                                        [] (now w'))), None)
        ∧ nextTx w' = S (nextTx w)
        ∧ inProgressQueries (s c') = inProgressQueries (s c) + 1
        ∧ ∀ (t : Transaction) (ctx2 : Context) (w2 : World),
            txFromCtx ctx2 = None →
            inProgressQueries (s (Commit t ctx2 c' w2).1.1.2)
            = inProgressQueries (s c)
            ∧ inProgressQueries (s (Rollback t ctx2 c' w2).1.1.2)
              = inProgressQueries (s c)
    end.
Proof.
  unfold beginOnPrimary. rewrite Hctx.
  rewrite limitReached_eq in Hadmit |- *. cbn [snd] in Hadmit.
  destruct (_ >? _); [discriminate|].
  cbn [r with_s with_r config db s].
  pose proof (start_free _ Hfree) as Hst. rewrite Hst.
  unfold BeginTx.
  destruct (beginReply (db c) (calls (db c))) as [dtx|e]; simpl.
  - split; [reflexivity|]. split; [reflexivity|]. split; [reflexivity|].
    split; [by apply wrap64_id|].
    intros t ctx2 w2 Hctx2. unfold Commit, Rollback. rewrite Hctx2.
    destruct (txCommit _ _) as [[tx1 wc] errc].
    destruct (txRollback _ _) as [[tx2 wr] errr].
    unfold finishTx. simpl.
    destruct errc, errr; simpl; by rewrite wrap64_inc_dec.
  - split; [reflexivity|]. split; [reflexivity|].
    split; [by apply wrap64_inc_dec|].
    by rewrite (start_end_held _ _ Hst).
Qed.

Lemma Begin_opens_or_cleans_up_witness :
  txFromCtx Background = None
  ∧ (limitReached (NewClient More.refusing) Sample.w0).2 = None
  ∧ (held (r (NewClient More.refusing))
     < cap (relayChan (r (NewClient More.refusing))))%nat
  ∧ in_int64 (inProgressQueries (s (NewClient More.refusing)))
  ∧ in_int64 (inProgressQueries (s (NewClient More.refusing)) + 1)
  ∧ (beginOnPrimary (NewClient More.refusing) Background Sample.w0).2
    = Returned (None, Some (errorString "connection refused")).
Proof.
  assert (H2 : (limitReached (NewClient More.refusing) Sample.w0).2 = None)
    by reflexivity.
  assert (H3 : (held (r (NewClient More.refusing))
                < cap (relayChan (r (NewClient More.refusing))))%nat)
    by (vm_compute; lia).
  assert (H4 : in_int64 (inProgressQueries (s (NewClient More.refusing))))
    by (vm_compute; split; discriminate).
  assert (H5 : in_int64 (inProgressQueries (s (NewClient More.refusing)) + 1))
    by (vm_compute; split; discriminate).
  split; [reflexivity|]. do 4 (split; [assumption|]).
  pose proof (Begin_opens_or_cleans_up (NewClient More.refusing) Background
                Sample.w0 eq_refl H2 H3 H4 H5) as H.
  destruct (beginOnPrimary (NewClient More.refusing) Background Sample.w0)
    as [[c' w'] res].
  exact (proj1 (proj2 H)).
Defined.

(** X6. A [Begin] rejected by the limit check returns [ErrQueueOverloaded]
    and leaves the in-progress counter one higher than before the call:
    the error it returns lives in a variable of the [if] statement, and the
    deferred closure, which reads the function's own error variable, sees
    nil and does not decrement. [Exec] on the same client puts the counter
    back. *)
Theorem Begin_overload_keeps_the_increment
  (c : Client) (ctx : Context) (query : string) (w : World)
  (Hctx : txFromCtx ctx = None)
  (Hover : (limitReached c w).2 ≠ None)
  (Hn : in_int64 (inProgressQueries (s c)))
  (Hinc : in_int64 (inProgressQueries (s c) + 1)) :
  (beginOnPrimary c ctx w).2 = Returned (None, Some ErrQueueOverloaded)
  ∧ inProgressQueries (s (beginOnPrimary c ctx w).1.1)
    = inProgressQueries (s c) + 1
  ∧ occurrences (EvInProgress (-1)) (trace (beginOnPrimary c ctx w).1.2)
    = occurrences (EvInProgress (-1)) (trace w)
  ∧ (Exec c ctx query w).2 = Returned (None, Some ErrQueueOverloaded)
  ∧ inProgressQueries (s (Exec c ctx query w).1.1) = inProgressQueries (s c).
Proof.
  unfold beginOnPrimary, Exec. rewrite Hctx.
  rewrite limitReached_eq in Hover |- *. cbn [snd] in Hover.
  destruct (_ >? _); [|done]. unfold deferred, log. simpl.
  split; [reflexivity|]. split; [by apply wrap64_id|].
  split; [count_events|]. split; [reflexivity|by apply wrap64_inc_dec].
Qed.

Lemma Begin_overload_keeps_the_increment_witness :
  txFromCtx Background = None
  ∧ (limitReached Sample.busy Sample.w0).2 ≠ None
  ∧ in_int64 (inProgressQueries (s Sample.busy))
  ∧ in_int64 (inProgressQueries (s Sample.busy) + 1)
  ∧ inProgressQueries (s (beginOnPrimary Sample.busy Background Sample.w0).1.1)
    = 10021.
Proof.
  assert (H2 : (limitReached Sample.busy Sample.w0).2 ≠ None) by done.
  assert (H3 : in_int64 (inProgressQueries (s Sample.busy)))
    by (vm_compute; split; discriminate).
  assert (H4 : in_int64 (inProgressQueries (s Sample.busy) + 1))
    by (vm_compute; split; discriminate).
  split; [reflexivity|]. do 3 (split; [assumption|]).
  exact (proj1 (proj2 (Begin_overload_keeps_the_increment Sample.busy
                         Background "UPDATE t SET x = 1" Sample.w0
                         eq_refl H2 H3 H4))).
Defined.

(** ** The success and failure totals *)

Lemma Exec_counted (c : Client) (ctx : Context) (q : string) (w : World) :
  counted c (Exec c ctx q w).
Proof.
  unfold counted, Exec. rewrite limitReached_eq.
  destruct (_ >? _); [done|].
  cbn [r with_s with_r config db s].
  destruct (start (r c)) as [r1|]; [|done].
  destruct (execLoop _ _ _ _ _ _ _ _) as [[[d3 w3] result] err].
  destruct err as [e|], result as [sr|]; done.
Qed.

Lemma queryOnPrimary_counted (c : Client) (ctx : Context) (q : string)
  (w : World) :
  counted c (queryOnPrimary c ctx q w).
Proof.
  unfold counted, queryOnPrimary. rewrite limitReached_eq.
  destruct (_ >? _); [done|].
  cbn [r with_s with_r config db s].
  destruct (start (r c)) as [r1|]; [|done].
  destruct (checkIfSyncNeeded _); unfold ExecContext; cbv zeta;
    cbn [r with_s with_r with_db config db s fst snd];
    destruct (queryLoop _ _ _ _ _ _ _ _) as [[[d3 w3] rows] err];
    destruct err as [e|], rows as [rs|]; try done;
    by destruct (newResultsFromSqlRows (current rs)).
Qed.

(** X7. [Exec], and [Query] on a client without replica, hand back either
    a value with a nil error or no value with an error, and move the
    totals accordingly: one more success for a value, one more failure for
    an error of any origin (overload, driver, decoding). A panic, which
    leaves the error variable nil, is counted as a success. *)
Theorem outcome_counted_once
  (c : Client) (ctx : Context) (query : string) (w : World) :
  counted c (Exec c ctx query w)
  ∧ (replica c = None → counted c (Query c ctx query w)).
Proof.
  split; [apply Exec_counted|].
  intros Hrep. rewrite Query_no_replica by done. apply queryOnPrimary_counted.
Qed.

(** ** MultiQuery *)

Lemma drain_decodeAll (rest : list ResultSet) :
  ∀ (cur : ResultSet) (qt : Z) (acc : list Results),
    drain cur rest qt acc
    = match decodeAll (cur :: rest) with
      | inl e => inl e
      | inr all => inr (acc ++ ((λ res, withQueryTime res qt) <$> all))
      end.
Proof.
  induction rest as [|next rest IH]; intros cur qt acc.
  - simpl. by destruct (newResultsFromSqlRows cur).
  - change (drain cur (next :: rest) qt acc)
      with (match newResultsFromSqlRows cur with
            | inl e => inl e
            | inr results =>
                drain next rest qt (acc ++ [withQueryTime results qt])
            end).
    change (decodeAll (cur :: next :: rest))
      with (match newResultsFromSqlRows cur with
            | inl e => inl e
            | inr res =>
                match decodeAll (next :: rest) with
                | inl e => inl e
                | inr all => inr (res :: all)
                end
            end).
    destruct (newResultsFromSqlRows cur) as [e|res]; [done|].
    rewrite IH. destruct (decodeAll (next :: rest)) as [e|all]; [done|].
    by rewrite fmap_cons, <- app_assoc.
Qed.

Lemma decodeAll_length (sets : list ResultSet) (all : list Results) :
  decodeAll sets = inr all → length all = length sets.
Proof.
  revert all. induction sets as [|rs sets IH]; intros all; simpl.
  - by intros [= <-].
  - destruct (newResultsFromSqlRows rs); [done|].
    destruct (decodeAll sets); [done|]. intros [= <-]. simpl.
    f_equal. by apply IH.
Qed.

Section FirstReply.

Context (c : Client) (ctx : Context) (query : string) (w : World).
Context (rs : Rows).
Context (Hadmit : (limitReached c w).2 = None).
Context (Hfree : (held (r c) < cap (relayChan (r c)))%nat).
Context (Hpass : 0 < attempts (config c)).
Context (Hreply : queryReply (db c) (calls (db c)) = QueryOk rs).

Let qt : Z := latency (db c) (calls (db c)).

(** [MultiQuery] whose first attempt is answered with rows. *)
Lemma MultiQuery_answered :
  MultiQuery c ctx query w
  = let c2 := with_r (with_s c (addInProgress 1 (s c)))
                (mkRelay (mkChan (buf (relayChan (r c)) ++ [true])
                                 (cap (relayChan (r c))))) in
    let q := mkQueryStats query qt 0 0 in
    let c3 := with_s (with_db c2 (served (db c))) (sample (s c2) q) in
    let w4 :=
      emit (EvSample q)
        (elapse qt
           (emit (EvQueryContext query
                    (deadline (withConfigTimeout (config c) ctx w)))
              (emit EvStart (emit (EvInProgress 1) w)))) in
    let leave (w : World) (res : reply MultiResults) :=
      let c6 := with_r c3 (end_ (r c3)) in
      let '(c7, w7) := deferred None query c6 (emit EvEnd (emit EvRowsClose w)) in
      (c7, w7, res) in
    match drain (current rs) (pending rs) qt [] with
    | inl e => leave w4 (Returned (None, Some e))
    | inr all =>
        leave (log Debug query w4)
          (Returned (Some (mkMultiResults all qt), None))
    end.
Proof using Hadmit Hfree Hpass Hreply.
  unfold MultiQuery. rewrite limitReached_eq in Hadmit |- *.
  cbn [snd] in Hadmit.
  destruct (_ >? _); [discriminate|].
  cbn [r with_s with_r config db s].
  rewrite (start_free _ Hfree).
  destruct (Z.to_nat (attempts (config c))) as [|n] eqn:Hn; [lia|].
  rewrite queryLoop_step. cbv zeta. rewrite Hreply. simpl.
  replace (now w + latency (db c) (calls (db c)) - now w) with qt
    by (unfold qt; lia).
  by destruct (drain _ _ _ _).
Qed.

(** X8. When the first attempt of an admitted [MultiQuery] is answered
    with rows, the call decodes the result sets in the order the driver
    yields them. If all of them decode, it returns exactly one result
    object per result set, in that order, each being the decoding of its
    set stamped with the time the statement took; if one does not, it
    returns no results and the error of the first set that failed. *)
Theorem MultiQuery_one_result_per_set :
  let '(c', w', res) := MultiQuery c ctx query w in
  match decodeAll (current rs :: pending rs) with
  | inr all =>
      ∃ mr : MultiResults,
        res = Returned (Some mr, None)
        ∧ Results_ mr = (λ r0, withQueryTime r0 qt) <$> all
        ∧ MultiCount mr = S (length (pending rs))
        ∧ MQueryTime mr = qt
        ∧ Forall (λ r0, QueryTime r0 = qt) (Results_ mr)
  | inl e => res = Returned (None, Some e)
  end.
Proof using Hadmit Hfree Hpass Hreply.
  rewrite MultiQuery_answered. cbv zeta. rewrite drain_decodeAll.
  destruct (decodeAll (current rs :: pending rs)) as [e|all] eqn:Hall.
  - unfold deferred. reflexivity.
  - unfold deferred. simpl. eexists. split; [reflexivity|]. simpl.
    split; [reflexivity|]. unfold MultiCount. simpl.
    split; [rewrite length_fmap; by apply decodeAll_length in Hall|].
    split; [reflexivity|].
    apply Forall_fmap, Forall_forall. by intros r0 _.
Qed.

(** X9. When the rows of an admitted [MultiQuery] fail to decode, the call
    returns the decoding error but is counted as a success and logs no
    error: the error is assigned to a variable of the loop body, and the
    deferred closure reads the function's own, which is still nil. *)
Theorem MultiQuery_counts_decoding_failure_as_success (e : goerror)
  (Hdecode : decodeAll (current rs :: pending rs) = inl e) :
  let '(c', w', res) := MultiQuery c ctx query w in
  res = Returned (None, Some e)
  ∧ totalSuccessQueries (s c') = wrap64 (totalSuccessQueries (s c) + 1)
  ∧ totalFailedQueries (s c') = totalFailedQueries (s c)
  ∧ occurrences (EvLog Error query) (trace w')
    = occurrences (EvLog Error query) (trace w).
Proof using Hadmit Hfree Hpass Hreply.
  rewrite MultiQuery_answered. cbv zeta. rewrite drain_decodeAll, Hdecode.
  unfold deferred. simpl. repeat split. count_events.
Qed.

End FirstReply.

Lemma MultiQuery_one_result_per_set_witness :
  (limitReached (NewClient More.batch) Sample.w0).2 = None
  ∧ (held (r (NewClient More.batch))
     < cap (relayChan (r (NewClient More.batch))))%nat
  ∧ 0 < attempts (config (NewClient More.batch))
  ∧ (∃ mr : MultiResults,
       (MultiQuery (NewClient More.batch) Background "CALL p();" Sample.w0).2
       = Returned (Some mr, None)
       ∧ MultiCount mr = 3%nat).
Proof.
  assert (H1 : (limitReached (NewClient More.batch) Sample.w0).2 = None)
    by reflexivity.
  assert (H2 : (held (r (NewClient More.batch))
                < cap (relayChan (r (NewClient More.batch))))%nat)
    by (vm_compute; lia).
  assert (H3 : 0 < attempts (config (NewClient More.batch))) by reflexivity.
  do 3 (split; [assumption|]).
  pose proof (MultiQuery_one_result_per_set (NewClient More.batch) Background
                "CALL p();" Sample.w0 _ H1 H2 H3 eq_refl) as H.
  destruct (MultiQuery (NewClient More.batch) Background "CALL p();" Sample.w0)
    as [[c' w'] res].
  destruct H as (mr & -> & _ & Hcount & _). by exists mr.
Defined.

Lemma MultiQuery_counts_decoding_failure_as_success_witness :
  (limitReached (NewClient More.garbled) Sample.w0).2 = None
  ∧ (held (r (NewClient More.garbled))
     < cap (relayChan (r (NewClient More.garbled))))%nat
  ∧ 0 < attempts (config (NewClient More.garbled))
  ∧ (let '(c', w', res) :=
       MultiQuery (NewClient More.garbled) Background "CALL p();" Sample.w0 in
     res = Returned (None, Some (errorString "unhandled typejson"))
     ∧ totalSuccessQueries (s c') = 1
     ∧ totalFailedQueries (s c') = 0).
Proof.
  assert (H1 : (limitReached (NewClient More.garbled) Sample.w0).2 = None)
    by reflexivity.
  assert (H2 : (held (r (NewClient More.garbled))
                < cap (relayChan (r (NewClient More.garbled))))%nat)
    by (vm_compute; lia).
  assert (H3 : 0 < attempts (config (NewClient More.garbled))) by reflexivity.
  do 3 (split; [assumption|]).
  pose proof (MultiQuery_counts_decoding_failure_as_success
                (NewClient More.garbled) Background "CALL p();" Sample.w0 _
                H1 H2 H3 eq_refl (errorString "unhandled typejson") eq_refl)
    as H.
  destruct (MultiQuery (NewClient More.garbled) Background "CALL p();" Sample.w0)
    as [[c' w'] res].
  destruct H as (-> & Hs & Hf & _). split; [reflexivity|]. by rewrite Hs, Hf.
Defined.

(** ** How often the pool is called *)

Lemma execLoop_calls (n : nat) (cfg : Config) (ctx : Context) (q : string) :
  ∀ (d : DB) (w : World) (res : option sqlResult) (err : option goerror),
    (calls d ≤ calls (execLoop n cfg ctx q d w res err).1.1.1
     ≤ calls d + n)%nat.
Proof.
  induction n as [|n IH]; intros d w res err; [simpl; lia|].
  rewrite execLoop_step. cbv zeta.
  destruct (execDeadlocked _); [|simpl; lia].
  specialize (IH (served d)
                (Sleep (RetryOnDeadlockDelay cfg)
                   (log Warning "deadlock"
                      (elapse (latency d (calls d))
                         (emit (EvExecContext q (deadline ctx)) w))))
                (execResult (execReply d (calls d)))
                (execError (execReply d (calls d)))).
  simpl in IH. lia.
Qed.

Lemma queryLoop_calls (n : nat) (cfg : Config) (ctx : Context) (q : string) :
  ∀ (d : DB) (w : World) (rows : option Rows) (err : option goerror),
    (calls d ≤ calls (queryLoop n cfg ctx q d w rows err).1.1.1
     ≤ calls d + n)%nat.
Proof.
  induction n as [|n IH]; intros d w rows err; [simpl; lia|].
  rewrite queryLoop_step. cbv zeta.
  destruct (queryDeadlocked _); [|simpl; lia].
  specialize (IH (served d)
                (Sleep (RetryOnDeadlockDelay cfg)
                   (elapse (latency d (calls d))
                      (emit (EvQueryContext q (deadline ctx)) w)))
                (queryRows (queryReply d (calls d)))
                (queryError (queryReply d (calls d)))).
  simpl in IH. lia.
Qed.

(** X10. Whatever the pool answers, [Exec] and [MultiQuery] send their
    statement to it at most as many times as the retry loop has passes:
    [1 + RetryOnDeadlockCount] (as a 64-bit sum) with the retry policy on,
    one with the policy off, none when that number is not positive; a
    [Query] on a client without replica sends at most two session
    statements more. Each of the three calls ([Query] again on a client
    without replica), when it is rejected for overload or parked on the
    relay, sends nothing and leaves the pool as it was. *)
Theorem driver_calls_bounded
  (c : Client) (ctx : Context) (query : string) (w : World) :
  let passes := Z.to_nat (attempts (config c)) in
  (calls (db c) ≤ calls (db (Exec c ctx query w).1.1)
   ≤ calls (db c) + passes)%nat
  ∧ (calls (db c) ≤ calls (db (MultiQuery c ctx query w).1.1)
     ≤ calls (db c) + passes)%nat
  ∧ (replica c = None →
     (calls (db c) ≤ calls (db (Query c ctx query w).1.1)
      ≤ calls (db c) + passes + 2)%nat)
  ∧ (RetryOnDeadlock (config c) = false → passes = 1%nat)
  ∧ (RetryOnDeadlock (config c) = true →
     attempts (config c) = wrap64 (1 + RetryOnDeadlockCount (config c)))
  ∧ ((Exec c ctx query w).2 = Blocked
     ∨ (limitReached c w).2 ≠ None →
     db (Exec c ctx query w).1.1 = db c)
  ∧ ((MultiQuery c ctx query w).2 = Blocked
     ∨ (limitReached c w).2 ≠ None →
     db (MultiQuery c ctx query w).1.1 = db c)
  ∧ (replica c = None →
     (Query c ctx query w).2 = Blocked
     ∨ (limitReached c w).2 ≠ None →
     db (Query c ctx query w).1.1 = db c).
Proof.
  cbv zeta. split; [|split; [|split; [|split; [|split; [|split; [|split]]]]]].
  - unfold Exec. rewrite limitReached_eq.
    destruct (_ >? _); [unfold deferred; simpl; lia|].
    cbn [r with_s with_r config db s].
    destruct (start (r c)) as [r1|]; [|simpl; lia].
    match goal with
    | |- context [execLoop ?n ?cfg ?cx ?q ?d ?w0 ?a ?b] =>
        pose proof (execLoop_calls n cfg cx q d w0 a b) as Hb;
        destruct (execLoop n cfg cx q d w0 a b) as [[[d3 w3] result] err]
    end.
    simpl in Hb. unfold deferred.
    destruct err as [e|], result as [sr|]; simpl; lia.
  - unfold MultiQuery. rewrite limitReached_eq.
    destruct (_ >? _); [unfold deferred; simpl; lia|].
    cbn [r with_s with_r config db s].
    destruct (start (r c)) as [r1|]; [|simpl; lia].
    match goal with
    | |- context [queryLoop ?n ?cfg ?cx ?q ?d ?w0 ?a ?b] =>
        pose proof (queryLoop_calls n cfg cx q d w0 a b) as Hb;
        destruct (queryLoop n cfg cx q d w0 a b) as [[[d3 w3] rows] err]
    end.
    simpl in Hb. unfold deferred.
    repeat case_match; simplify_eq; simpl; lia.
  - intros Hrep. rewrite Query_no_replica by done.
    unfold queryOnPrimary. rewrite limitReached_eq.
    destruct (_ >? _); [unfold deferred; simpl; lia|].
    cbn [r with_s with_r config db s].
    destruct (start (r c)) as [r1|]; [|simpl; lia].
    destruct (checkIfSyncNeeded _); unfold ExecContext; cbv zeta;
      cbn [r with_s with_r with_db config db s fst snd];
      match goal with
      | |- context [queryLoop ?n ?cfg ?cx ?q ?d ?w0 ?a ?b] =>
          pose proof (queryLoop_calls n cfg cx q d w0 a b) as Hb;
          destruct (queryLoop n cfg cx q d w0 a b) as [[[d3 w3] rows] err]
      end;
      simpl in Hb; unfold deferred;
      repeat case_match; simplify_eq; simpl; lia.
  - unfold attempts. by intros ->.
  - unfold attempts. by intros ->.
  - unfold Exec. rewrite limitReached_eq. cbn [snd].
    destruct (_ >? _); [unfold deferred; simpl; done|].
    cbn [r with_s with_r config db s].
    destruct (start (r c)) as [r1|]; [|done].
    destruct (execLoop _ _ _ _ _ _ _ _) as [[[d3 w3] result] err].
    unfold deferred. intros [Hb|Hn]; [|done].
    destruct err as [e|], result as [sr|]; simpl in Hb; done.
  - unfold MultiQuery. rewrite limitReached_eq. cbn [snd].
    destruct (_ >? _); [unfold deferred; simpl; done|].
    cbn [r with_s with_r config db s].
    destruct (start (r c)) as [r1|]; [|done].
    destruct (queryLoop _ _ _ _ _ _ _ _) as [[[d3 w3] rows] err].
    unfold deferred. intros [Hb|Hn]; [|done].
    repeat case_match; simplify_eq; simpl in Hb; done.
  - intros Hrep. rewrite Query_no_replica by done.
    unfold queryOnPrimary. rewrite limitReached_eq. cbn [snd].
    destruct (_ >? _); [unfold deferred; simpl; done|].
    cbn [r with_s with_r config db s].
    destruct (start (r c)) as [r1|]; [|done].
    destruct (checkIfSyncNeeded _); unfold ExecContext; cbv zeta;
      cbn [r with_s with_r with_db config db s fst snd];
      destruct (queryLoop _ _ _ _ _ _ _ _) as [[[d3 w3] rows] err];
      unfold deferred; (intros [Hb|Hn]; [|done]);
      repeat case_match; simplify_eq; simpl in Hb; done.
Qed.

(** X11. With the retry policy on and a [RetryOnDeadlockCount] below 0,
    the retry loop of an admitted call has no pass at all: the statement
    is never sent ([Exec] and [MultiQuery] leave the pool untouched,
    [Query] sends its two session statements when the context asks for
    synchronisation and nothing otherwise), and [Exec], [MultiQuery] and
    [Query] (on a client without replica) all panic on the nil result
    they then use. In each of the three the deferred calls still run: the
    ticket is given back, the in-progress counter is restored, and the
    call is counted as a success and not as a failure. *)
Theorem negative_retry_count_panics
  (c : Client) (ctx : Context) (query : string) (w : World)
  (Hretry : RetryOnDeadlock (config c) = true)
  (Hcount : int64_min ≤ RetryOnDeadlockCount (config c) < 0)
  (Hadmit : (limitReached c w).2 = None)
  (Hfree : (held (r c) < cap (relayChan (r c)))%nat)
  (Hn : in_int64 (inProgressQueries (s c))) :
  ((Exec c ctx query w).2 = Panicked
   ∧ db (Exec c ctx query w).1.1 = db c
   ∧ inProgressQueries (s (Exec c ctx query w).1.1) = inProgressQueries (s c)
   ∧ totalSuccessQueries (s (Exec c ctx query w).1.1)
     = wrap64 (totalSuccessQueries (s c) + 1)
   ∧ held (r (Exec c ctx query w).1.1) = held (r c))
  ∧ ((MultiQuery c ctx query w).2 = Panicked
     ∧ db (MultiQuery c ctx query w).1.1 = db c)
  ∧ (replica c = None →
     (Query c ctx query w).2 = Panicked
     ∧ occurrences (EvQueryContext query
                      (deadline (withConfigTimeout (config c) ctx w)))
         (trace (Query c ctx query w).1.2)
       = occurrences (EvQueryContext query
                        (deadline (withConfigTimeout (config c) ctx w)))
           (trace w))
  ∧ totalFailedQueries (s (Exec c ctx query w).1.1) = totalFailedQueries (s c)
  ∧ (inProgressQueries (s (MultiQuery c ctx query w).1.1)
     = inProgressQueries (s c)
     ∧ totalSuccessQueries (s (MultiQuery c ctx query w).1.1)
       = wrap64 (totalSuccessQueries (s c) + 1)
     ∧ totalFailedQueries (s (MultiQuery c ctx query w).1.1)
       = totalFailedQueries (s c)
     ∧ held (r (MultiQuery c ctx query w).1.1) = held (r c))
  ∧ (replica c = None →
     inProgressQueries (s (Query c ctx query w).1.1) = inProgressQueries (s c)
     ∧ totalSuccessQueries (s (Query c ctx query w).1.1)
       = wrap64 (totalSuccessQueries (s c) + 1)
     ∧ totalFailedQueries (s (Query c ctx query w).1.1)
       = totalFailedQueries (s c)
     ∧ held (r (Query c ctx query w).1.1) = held (r c)
     ∧ (calls (db (Query c ctx query w).1.1)
        = calls (db c) + if checkIfSyncNeeded ctx then 2 else 0)%nat).
Proof.
  assert (Hpass : Z.to_nat (attempts (config c)) = 0%nat).
  { unfold attempts. rewrite Hretry, wrap64_id; [lia|].
    unfold in_int64, int64_min, int64_max in *. lia. }
  pose proof (start_free _ Hfree) as Hst.
  pose proof (start_end_held _ _ Hst) as Hend.
  rewrite limitReached_eq in Hadmit. cbn [snd] in Hadmit.
  split; [|split; [|split; [|split; [|split]]]].
  - unfold Exec. rewrite limitReached_eq.
    destruct (_ >? _); [discriminate|].
    cbn [r with_s with_r config db s]. rewrite Hst, Hpass.
    unfold deferred. simpl.
    split; [reflexivity|]. split; [reflexivity|].
    split; [by apply wrap64_inc_dec|]. split; [reflexivity|exact Hend].
  - unfold MultiQuery. rewrite limitReached_eq.
    destruct (_ >? _); [discriminate|].
    cbn [r with_s with_r config db s]. rewrite Hst, Hpass.
    unfold deferred. simpl. done.
  - intros Hrep. rewrite Query_no_replica by done.
    unfold queryOnPrimary. rewrite limitReached_eq.
    destruct (_ >? _); [discriminate|].
    cbn [r with_s with_r config db s]. rewrite Hst, Hpass.
    destruct (checkIfSyncNeeded _); unfold ExecContext, deferred; simpl;
      (split; [reflexivity|]); count_events.
  - unfold Exec. rewrite limitReached_eq.
    destruct (_ >? _); [discriminate|].
    cbn [r with_s with_r config db s]. rewrite Hst, Hpass.
    unfold deferred. reflexivity.
  - unfold MultiQuery. rewrite limitReached_eq.
    destruct (_ >? _); [discriminate|].
    cbn [r with_s with_r config db s]. rewrite Hst, Hpass.
    unfold deferred. simpl.
    split; [by apply wrap64_inc_dec|]. split; [reflexivity|].
    split; [reflexivity|exact Hend].
  - intros Hrep. rewrite Query_no_replica by done.
    unfold queryOnPrimary. rewrite limitReached_eq.
    destruct (_ >? _); [discriminate|].
    cbn [r with_s with_r config db s]. rewrite Hst, Hpass.
    assert (Hsync : checkIfSyncNeeded
                      (withConfigTimeout (config c) ctx
                         (emit (EvInProgress 1) w))
                    = checkIfSyncNeeded ctx).
    { unfold withConfigTimeout. by destruct (_ >? _). }
    rewrite Hsync.
    destruct (checkIfSyncNeeded ctx); unfold ExecContext, deferred; simpl;
      (split; [by apply wrap64_inc_dec|]); (split; [reflexivity|]);
      (split; [reflexivity|]); (split; [exact Hend|lia]).
Qed.

Lemma negative_retry_count_panics_witness :
  RetryOnDeadlock (config More.negative) = true
  ∧ int64_min ≤ RetryOnDeadlockCount (config More.negative) < 0
  ∧ (limitReached More.negative Sample.w0).2 = None
  ∧ (held (r More.negative) < cap (relayChan (r More.negative)))%nat
  ∧ in_int64 (inProgressQueries (s More.negative))
  ∧ (Exec More.negative Background "UPDATE t SET x = 1" Sample.w0).2 = Panicked.
Proof.
  assert (H2 : int64_min ≤ RetryOnDeadlockCount (config More.negative) < 0)
    by (vm_compute; split; [discriminate|reflexivity]).
  assert (H4 : (held (r More.negative) < cap (relayChan (r More.negative)))%nat)
    by (vm_compute; lia).
  assert (H5 : in_int64 (inProgressQueries (s More.negative)))
    by (vm_compute; split; discriminate).
  split; [reflexivity|]. split; [exact H2|]. split; [reflexivity|].
  split; [exact H4|]. split; [exact H5|].
  exact (proj1 (proj1 (negative_retry_count_panics More.negative Background
                         "UPDATE t SET x = 1" Sample.w0 eq_refl H2 eq_refl
                         H4 H5))).
Defined.

(** ** Decoding *)

Lemma newElements_ok (cts : list ColumnType) (es : list Element) :
  newElements cts = inr es →
  Forall2 (λ ct e, scanKind (ScanType ct) = Some (Type_ e) ∧ cell e = None)
          cts es.
Proof.
  revert es. induction cts as [|ct cts IH]; intros es; simpl.
  - intros [= <-]. constructor.
  - destruct (scanKind (ScanType ct)) as [k|] eqn:Hk; [|done].
    destruct (newElements cts) as [e|es']; [done|].
    intros [= <-]. constructor; [done|by apply IH].
Qed.

Lemma newElements_error (cts : list ColumnType) (e : goerror) :
  newElements cts = inl e →
  ∃ (i : nat) (ct : ColumnType),
    cts !! i = Some ct
    ∧ scanKind (ScanType ct) = None
    ∧ e = errorString ("unhandled type" +:+ ScanType ct)
    ∧ ∀ (j : nat) (ct' : ColumnType),
        (j < i)%nat → cts !! j = Some ct' → scanKind (ScanType ct') ≠ None.
Proof.
  revert e. induction cts as [|ct cts IH]; intros e; simpl; [done|].
  destruct (scanKind (ScanType ct)) as [k|] eqn:Hk.
  - destruct (newElements cts) as [e'|es'] eqn:Hrest; [|done].
    intros [= <-]. destruct (IH e' eq_refl) as (i & ct0 & Hi & Hnone & He & Hfirst).
    exists (S i), ct0. repeat split; try done.
    intros [|j] ct' Hj; simpl; [intros [= <-]; congruence|].
    apply Hfirst. lia.
  - intros [= <-]. exists 0%nat, ct. repeat split; try done.
    intros j ct' Hj. lia.
Qed.

(** X12. [newRow] builds one element per column, in column order, each of
    the kind the column's scan type maps to and each null until something
    is scanned into it, and attaches the columns to the row. It fails
    exactly when some column has a scan type without a case, and then
    reports the first such column's type. *)
Theorem newRow_one_element_per_column (c : Columns) :
  match newRow c with
  | inr row =>
      Columns_ row = c
      ∧ length (Elements row) = length (columnTypes c)
      ∧ Forall2 (λ ct e, scanKind (ScanType ct) = Some (Type_ e)
                         ∧ cell e = None)
                (columnTypes c) (Elements row)
  | inl e =>
      ∃ (i : nat) (ct : ColumnType),
        columnTypes c !! i = Some ct
        ∧ scanKind (ScanType ct) = None
        ∧ e = errorString ("unhandled type" +:+ ScanType ct)
        ∧ ∀ (j : nat) (ct' : ColumnType),
            (j < i)%nat → columnTypes c !! j = Some ct' →
            scanKind (ScanType ct') ≠ None
  end.
Proof.
  unfold newRow. destruct (newElements (columnTypes c)) as [e|es] eqn:Hes.
  - by apply newElements_error.
  - apply newElements_ok in Hes. simpl. split; [done|].
    split; [symmetry; by eapply Forall2_length|done].
Qed.

Lemma scan_length (es : list Element) (cells : list (option string)) :
  length (scan es cells) = length es.
Proof.
  unfold scan. case_bool_decide as Hlen; [|done].
  rewrite length_zip_with. lia.
Qed.

Lemma scanRows_spec (c : Columns) (data : list (list (option string))) :
  ∀ acc : list Row,
    scanRows c data acc
    = match data, newRow c with
      | [], _ => inr acc
      | _ :: _, inl e => inl e
      | _ :: _, inr row =>
          inr (acc ++ ((λ cells, mkRow (scan (Elements row) cells) c)
                         <$> data))
      end.
Proof.
  induction data as [|cells data IH]; intros acc; simpl; [done|].
  destruct (newRow c) as [e|row] eqn:Hrow; [done|].
  rewrite IH. destruct data as [|cells' data]; simpl.
  - done.
  - rewrite ?Hrow. by rewrite <- app_assoc.
Qed.

Lemma GetElementByName_cases (row : Row) (name : string) :
  cached (Columns_ row) →
  length (Elements row) = length (columnTypes (Columns_ row)) →
  (name ∈ map Name (columnTypes (Columns_ row)) →
   ∃ e : Element, (GetElementByName row name).2 = Returned (Some e))
  ∧ (name ∉ map Name (columnTypes (Columns_ row)) →
     (GetElementByName row name).2 = Returned None).
Proof.
  intros Hc Hlen. unfold GetElementByName.
  destruct (ColumnIndex_cached (Columns_ row) name Hc) as (_ & _ & Hidx).
  destruct (ColumnIndex (Columns_ row) name) as [c' [i err]]. simpl in Hidx.
  split.
  - intros Hin.
    destruct (fillIndexes_in _ 0 ∅ name Hin) as (j & Hj & Hl & _).
    rewrite Hj in Hidx. simplify_eq. simpl.
    apply lookup_lt_Some in Hl. rewrite length_map in Hl.
    destruct (lookup_lt_is_Some_2 (Elements row) j ltac:(lia)) as [e ->].
    by exists e.
  - intros Hout.
    rewrite fillIndexes_notin, lookup_empty in Hidx by done.
    by simplify_eq.
Qed.

(** X13. A result set that decodes yields the columns of the driver's
    column types and exactly one row per row of data; every row carries
    those columns and has one element per column, whatever [Scan] did
    with the row, so that it can be asked for any name without a panic: a
    name that occurs among the columns gets an element, any other gets
    nil. *)
Theorem decoded_rows_match_the_data (rs : ResultSet) (res : Results)
  (Hres : newResultsFromSqlRows rs = inr res) :
  ∃ cts : list ColumnType,
    rsColumnTypes rs = inr cts
    ∧ Columns__ res = Some (newColumns cts)
    ∧ Count res = length (rsData rs)
    ∧ (∀ (j : nat) (row : Row),
         Rows_ res !! j = Some row →
         Columns_ row = newColumns cts
         ∧ length (Elements row) = length cts
         ∧ ∀ name : string,
             (GetElementByName row name).2 ≠ Panicked
             ∧ (name ∈ map Name cts →
                ∃ e : Element, (GetElementByName row name).2
                               = Returned (Some e))
             ∧ (name ∉ map Name cts →
                (GetElementByName row name).2 = Returned None))
    ∧ (rsData rs = [] → Rows_ res = []).
Proof.
  unfold newResultsFromSqlRows in Hres.
  destruct (rsColumnTypes rs) as [e|cts] eqn:Hcts; [done|].
  exists cts. split; [done|].
  rewrite scanRows_spec in Hres.
  destruct (rsData rs) as [|cells0 data] eqn:Hdata.
  { simplify_eq. simpl. repeat split; try done. }
  unfold newRow in Hres. simpl in Hres.
  destruct (newElements cts) as [e|es0] eqn:Hes; [done|].
  pose proof (Forall2_length _ _ _ (newElements_ok _ _ Hes)) as Hlen0.
  assert (Hrows : Rows_ res
                  = (λ cells, mkRow (scan es0 cells) (newColumns cts))
                      <$> (cells0 :: data))
    by (by injection Hres as <-).
  assert (Hcols : Columns__ res = Some (newColumns cts))
    by (by injection Hres as <-).
  clear Hres. unfold Count. rewrite Hrows, length_fmap.
  split; [done|]. split; [done|]. split; [|done].
  intros j row Hj. rewrite list_lookup_fmap in Hj.
  destruct ((cells0 :: data) !! j) as [cells|] eqn:Hcells; [|done].
  simpl in Hj. simplify_eq.
  assert (Hlen : length (scan es0 cells) = length cts)
    by (rewrite scan_length; lia).
  split; [done|]. split; [exact Hlen|].
  intros name.
  pose proof (GetElementByName_cases
                (mkRow (scan es0 cells) (newColumns cts)) name
                ltac:(split; by left) Hlen) as Hcases.
  simpl in Hcases. destruct Hcases as [Hin Hout].
  split; [|split; [exact Hin|exact Hout]].
  destruct (decide (name ∈ map Name cts)) as [H|H].
  - destruct (Hin H) as [e ->]. done.
  - by rewrite (Hout H).
Qed.

Lemma decoded_rows_match_the_data_witness :
  Count <$> (match newResultsFromSqlRows (More.oneRow "a" "1") with
             | inr res => Some res
             | inl _ => None
             end) = Some 1%nat.
Proof.
  destruct (newResultsFromSqlRows (More.oneRow "a" "1")) as [e|res] eqn:Hres;
    [by vm_compute in Hres|].
  destruct (decoded_rows_match_the_data _ res Hres) as (cts & _ & _ & Hc & _).
  simpl. by rewrite Hc.
Defined.

(** X14. Decoding a result set fails in two cases only: the driver
    reports an error for the column types, which is returned as it is, or
    there is at least one row and [newRow] fails on the columns. A result
    set without rows therefore decodes whatever the scan types of its
    columns are, to the columns and no rows. *)
Theorem decoding_fails_on_columns_only (rs : ResultSet) :
  match newResultsFromSqlRows rs with
  | inl e =>
      rsColumnTypes rs = inl e
      ∨ (rsData rs ≠ []
         ∧ ∃ cts : list ColumnType,
             rsColumnTypes rs = inr cts ∧ newRow (newColumns cts) = inl e)
  | inr res =>
      ∃ cts : list ColumnType,
        rsColumnTypes rs = inr cts
        ∧ (rsData rs = [] ∨ ∃ row : Row, newRow (newColumns cts) = inr row)
        ∧ (rsData rs = []
           → res = mkResults (Some (newColumns cts)) [] 0)
  end.
Proof.
  unfold newResultsFromSqlRows.
  destruct (rsColumnTypes rs) as [e|cts]; [by left|].
  rewrite scanRows_spec.
  destruct (rsData rs) as [|cells data].
  - exists cts. split; [done|]. split; [by left|done].
  - destruct (newRow (newColumns cts)) as [e|row] eqn:Hrow.
    + right. split; [done|]. by exists cts.
    + exists cts. split; [done|]. split; [right; by exists row|done].
Qed.

(** ** Observers *)

Lemma register_fields (n : nat) (t : Transaction) :
  done (register n t) = done t ++ replicate n make_observer
  ∧ tx (register n t) = tx t
  ∧ self (register n t) = self t
  ∧ startedAt (register n t) = startedAt t.
Proof.
  induction n as [|n IH].
  - simpl. by rewrite app_nil_r.
  - change (register (S n) t) with (Done (register n t)).1.
    unfold Done. cbn [fst done tx self startedAt with_done].
    destruct IH as (-> & -> & -> & ->). repeat split.
    rewrite <- app_assoc. f_equal.
    change (replicate n make_observer ++ [make_observer])
      with (replicate n make_observer ++ replicate 1 make_observer).
    rewrite <- replicate_add. f_equal. lia.
Qed.

Lemma fanOut_fmap (err : option goerror) (cs : list observer) :
  fanOut err cs = notify err <$> cs.
Proof. induction cs as [|c cs IH]; simpl; [done|]. by rewrite IH. Qed.

Lemma Commit_done (t : Transaction) (ctx : Context) (c : Client) (w : World) :
  txFromCtx ctx = None →
  let driver := (txCommit (tx t) (emit (EvSpanStart "COMMIT") w)).2 in
  (Commit t ctx c w).2 = Returned driver
  ∧ done (Commit t ctx c w).1.1.1 = fanOut driver (done t)
  ∧ (finished (tx t) = false → driver = commitReply (tx t)).
Proof.
  intros Hctx. unfold Commit. rewrite Hctx.
  destruct (txCommit (tx t) (emit (EvSpanStart "COMMIT") w))
    as [[tx1 w2] err] eqn:Hc.
  destruct (finishTx _ _ _ _) as [c5 w5]. simpl.
  split; [done|]. split; [done|].
  intros Hf. unfold txCommit in Hc. rewrite Hf in Hc. congruence.
Qed.

Lemma Rollback_done (t : Transaction) (ctx : Context) (c : Client)
  (w : World) :
  txFromCtx ctx = None →
  let driver := (txRollback (tx t) (emit (EvSpanStart "ROLLBACK") w)).2 in
  (Rollback t ctx c w).2 = Returned driver
  ∧ done (Rollback t ctx c w).1.1.1
    = fanOut (Some (default ErrRollback driver)) (done t)
  ∧ (finished (tx t) = false → driver = rollbackReply (tx t)).
Proof.
  intros Hctx. unfold Rollback. rewrite Hctx.
  destruct (txRollback (tx t) (emit (EvSpanStart "ROLLBACK") w))
    as [[tx1 w2] err] eqn:Hc.
  destruct (finishTx _ _ _ _) as [c5 w5]. simpl.
  split; [done|]. split; [by destruct err|].
  intros Hf. unfold txRollback in Hc. rewrite Hf in Hc. congruence.
Qed.

(** X15. On a transaction without observers, [n] calls of [Done] register
    [n] channels, returned in order. When all their readers are receiving,
    a [Commit] that runs hands each of them the driver's answer, and a
    [Rollback] that runs hands each of them the driver's error or, if
    there is none, [ErrRollback]: one value per observer. A further
    [Commit] or [Rollback] sends them nothing more as long as they do not
    receive again. *)
Theorem observers_served_once
  (n : nat) (t : Transaction) (ctx : Context) (c : Client) (w : World)
  (Hfresh : done t = [])
  (Hctx : txFromCtx ctx = None) :
  let ready := awaitAll (register n t) in
  (∀ k : nat, (k < n)%nat → (Done (register k t)).2 = k)
  ∧ (let '(t', c', w', res) := Commit ready ctx c w in
     ∃ err : option goerror,
       res = Returned err
       ∧ (finished (tx t) = false → err = commitReply (tx t))
       ∧ done t' = replicate n (mkObserver false [err])
       ∧ done (Commit t' ctx c' w').1.1.1 = done t'
       ∧ done (Rollback t' ctx c' w').1.1.1 = done t')
  ∧ (let '(t', c', w', res) := Rollback ready ctx c w in
     ∃ err : option goerror,
       res = Returned err
       ∧ (finished (tx t) = false → err = rollbackReply (tx t))
       ∧ done t' = replicate n (mkObserver false
                                  [Some (default ErrRollback err)])
       ∧ done (Commit t' ctx c' w').1.1.1 = done t'
       ∧ done (Rollback t' ctx c' w').1.1.1 = done t').
Proof.
  cbv zeta.
  assert (Hready : done (awaitAll (register n t))
                   = replicate n (mkObserver true [])
                   ∧ tx (awaitAll (register n t)) = tx t).
  { unfold awaitAll. destruct (register_fields n t) as (Hd & Htx & _).
    simpl. rewrite Hd, Hfresh, Htx. simpl. by rewrite fmap_replicate. }
  destruct Hready as [Hdone Htx].
  assert (Hserve : ∀ v, fanOut v (replicate n (mkObserver true []))
                        = replicate n (mkObserver false [v])).
  { intros v. rewrite fanOut_fmap. by rewrite fmap_replicate. }
  assert (Hquiet : ∀ v v', fanOut v' (replicate n (mkObserver false [v]))
                           = replicate n (mkObserver false [v])).
  { intros v v'. rewrite fanOut_fmap. by rewrite fmap_replicate. }
  split; [|split].
  - intros k Hk. simpl. destruct (register_fields k t) as (-> & _).
    rewrite Hfresh. simpl. by rewrite length_replicate.
  - destruct (Commit_done (awaitAll (register n t)) ctx c w Hctx)
      as (Hres & Hd & Hdrv).
    destruct (Commit (awaitAll (register n t)) ctx c w)
      as [[[t' c'] w'] res]. cbn [fst snd] in Hres, Hd.
    rewrite Htx in Hres, Hd, Hdrv. rewrite Hdone, Hserve in Hd.
    eexists. split; [exact Hres|]. split; [exact Hdrv|]. split; [exact Hd|].
    destruct (Commit_done t' ctx c' w' Hctx) as (_ & -> & _).
    destruct (Rollback_done t' ctx c' w' Hctx) as (_ & -> & _).
    by rewrite Hd, !Hquiet.
  - destruct (Rollback_done (awaitAll (register n t)) ctx c w Hctx)
      as (Hres & Hd & Hdrv).
    destruct (Rollback (awaitAll (register n t)) ctx c w)
      as [[[t' c'] w'] res]. cbn [fst snd] in Hres, Hd.
    rewrite Htx in Hres, Hd, Hdrv. rewrite Hdone, Hserve in Hd.
    eexists. split; [exact Hres|]. split; [exact Hdrv|]. split; [exact Hd|].
    destruct (Commit_done t' ctx c' w' Hctx) as (_ & -> & _).
    destruct (Rollback_done t' ctx c' w' Hctx) as (_ & -> & _).
    by rewrite Hd, !Hquiet.
Qed.

Lemma observers_served_once_witness :
  done (newTransaction 0%nat Sample.tx0 NewDefaultConfig Sample.w0) = []
  ∧ txFromCtx Background = None
  ∧ done (Commit (awaitAll (register 3
                              (newTransaction 0%nat Sample.tx0
                                 NewDefaultConfig Sample.w0)))
            Background Sample.c0_open Sample.w0).1.1.1
    = replicate 3 (mkObserver false [None]).
Proof.
  split; [reflexivity|]. split; [reflexivity|].
  destruct (observers_served_once 3
              (newTransaction 0%nat Sample.tx0 NewDefaultConfig Sample.w0)
              Background Sample.c0_open Sample.w0 eq_refl eq_refl)
    as (_ & H & _).
  destruct (Commit _ _ _ _) as [[[t' c'] w'] res]. simpl.
  destruct H as (err & _ & Herr & -> & _).
  by rewrite (Herr eq_refl).
Defined.

(** ** The end of a transaction, counted *)

(** X16. A [Commit] or [Rollback] that runs returns what the driver
    answers, [sql.ErrTxDone] when the transaction is already finished, and
    is counted by that answer alone: one more success for nil, one more
    failure otherwise. A rollback that succeeds is thus a success in the
    totals although observers are told [ErrRollback]. Either call
    publishes a sample that carries the time the driver took and the time
    since the transaction was opened, and on a finished transaction either
    call still decrements the in-progress counter and gives a ticket
    back. *)
Theorem terminal_calls_counted
  (t : Transaction) (ctx : Context) (c : Client) (w : World)
  (Hctx : txFromCtx ctx = None) :
  (let '(t', c', w', res) := Commit t ctx c w in
   let driver := if finished (tx t) then Some ErrTxDone
                 else commitReply (tx t) in
   let took := if finished (tx t) then 0 else commitLatency (tx t) in
   res = Returned driver
   ∧ totalSuccessQueries (s c')
     = (if driver is None then wrap64 (totalSuccessQueries (s c) + 1)
        else totalSuccessQueries (s c))
   ∧ totalFailedQueries (s c')
     = (if driver is None then totalFailedQueries (s c)
        else wrap64 (totalFailedQueries (s c) + 1))
   ∧ inProgressQueries (s c') = wrap64 (inProgressQueries (s c) + -1)
   ∧ r c' = end_ (r c)
   ∧ now w' = now w + took
   ∧ EvSample (mkQueryStats "COMMIT" took 0 (now w' - startedAt t))
     ∈ trace w')
  ∧ (let '(t', c', w', res) := Rollback t ctx c w in
     let driver := if finished (tx t) then Some ErrTxDone
                   else rollbackReply (tx t) in
     let took := if finished (tx t) then 0 else rollbackLatency (tx t) in
     res = Returned driver
     ∧ totalSuccessQueries (s c')
       = (if driver is None then wrap64 (totalSuccessQueries (s c) + 1)
          else totalSuccessQueries (s c))
     ∧ totalFailedQueries (s c')
       = (if driver is None then totalFailedQueries (s c)
          else wrap64 (totalFailedQueries (s c) + 1))
     ∧ inProgressQueries (s c') = wrap64 (inProgressQueries (s c) + -1)
     ∧ r c' = end_ (r c)
     ∧ done t' = fanOut (Some (default ErrRollback driver)) (done t)
     ∧ now w' = now w + took
     ∧ EvSample (mkQueryStats "ROLLBACK" took 0 (now w' - startedAt t))
       ∈ trace w').
Proof.
  split.
  - unfold Commit. rewrite Hctx. unfold txCommit.
    destruct (finished (tx t)); [|destruct (commitReply (tx t))];
      unfold finishTx, log; simpl;
      rewrite ?Z.add_simpl_l, ?Z.sub_diag, ?Z.add_0_r;
      repeat split; set_solver.
  - unfold Rollback. rewrite Hctx. unfold txRollback.
    destruct (finished (tx t)); [|destruct (rollbackReply (tx t))];
      unfold finishTx, log; simpl;
      rewrite ?Z.add_simpl_l, ?Z.sub_diag, ?Z.add_0_r;
      repeat split; set_solver.
Qed.

Lemma terminal_calls_counted_witness :
  txFromCtx Background = None
  ∧ (let '(t', c', w', res) :=
       Rollback Sample.t0 Background Sample.c0_open Sample.w0 in
     res = Returned None ∧ totalSuccessQueries (s c') = 1
     ∧ totalFailedQueries (s c') = 0).
Proof.
  split; [reflexivity|].
  destruct (terminal_calls_counted Sample.t0 Background Sample.c0_open
              Sample.w0 eq_refl) as [_ H].
  destruct (Rollback Sample.t0 Background Sample.c0_open Sample.w0)
    as [[[t' c'] w'] res].
  destruct H as (-> & -> & -> & _). done.
Defined.

(** ** Statements inside a transaction *)

(** X17. [Exec] and [Query] on a transaction go straight to the driver:
    they take no ticket, leave the in-progress counter and the pool alone,
    never sleep, and are counted as one success or one failure like the
    client's calls. On a finished transaction they return
    [sql.ErrTxDone]. [Query] publishes one sample; [Exec] publishes one
    when it fails and the same sample twice when it succeeds. *)
Theorem statements_in_a_transaction
  (t : Transaction) (ctx : Context) (query : string)
  (erep : ExecReply) (qrep : QueryReply) (lat : Z) (c : Client) (w : World) :
  (let '(c', w', res) := TxExec t ctx query erep lat c w in
   r c' = r c ∧ db c' = db c ∧ replica c' = replica c
   ∧ inProgressQueries (s c') = inProgressQueries (s c)
   ∧ counted c (c', w', res)
   ∧ (finished (tx t) = true → res = Returned (None, Some ErrTxDone))
   ∧ (finished (tx t) = false →
      res = match erep with
            | ExecErr e => Returned (None, Some e)
            | ExecOk sr =>
                Returned (Some (mkMeta (LastInsertId sr) (RowsAffected_ sr)
                                       lat), None)
            end)
   ∧ occurrences EvStart (trace w') = occurrences EvStart (trace w)
   ∧ (∀ d : Z, occurrences (EvSleep d) (trace w')
               = occurrences (EvSleep d) (trace w))
   ∧ occurrences (EvSample (mkQueryStats query lat 0 0)) (trace w')
     = (occurrences (EvSample (mkQueryStats query lat 0 0)) (trace w)
        + match res with
          | Returned (Some _, _) => 2
          | _ => 1
          end)%nat)
  ∧ (let '(c', w', res) := TxQuery t ctx query qrep lat c w in
     r c' = r c ∧ db c' = db c ∧ replica c' = replica c
     ∧ inProgressQueries (s c') = inProgressQueries (s c)
     ∧ counted c (c', w', res)
     ∧ (finished (tx t) = true → res = Returned (None, Some ErrTxDone))
     ∧ occurrences EvStart (trace w') = occurrences EvStart (trace w)
     ∧ (∀ d : Z, occurrences (EvSleep d) (trace w')
                 = occurrences (EvSleep d) (trace w))
     ∧ occurrences (EvSample (mkQueryStats query lat 0 0)) (trace w')
       = S (occurrences (EvSample (mkQueryStats query lat 0 0)) (trace w))).
Proof.
  split.
  - unfold TxExec, txExecContext, finishStatement, counted, log.
    replace (now (elapse lat
                    (emit (EvExecContext query
                             (deadline (withConfigTimeout (tconfig t) ctx
                                          (emit (EvSpanStart "EXEC") w))))
                       (emit (EvSpanStart "EXEC") w)))
             - now (emit (EvSpanStart "EXEC") w)) with lat by (simpl; lia).
    destruct (finished (tx t)); [|destruct erep as [sr|e]]; simpl;
      repeat split; try done; intros; count_events.
  - unfold TxQuery, txQueryContext, finishStatement, counted, log.
    replace (now (elapse lat
                    (emit (EvQueryContext query
                             (deadline (withConfigTimeout (tconfig t) ctx
                                          (emit (EvSpanStart "QUERY") w))))
                       (emit (EvSpanStart "QUERY") w)))
             - now (emit (EvSpanStart "QUERY") w)) with lat by (simpl; lia).
    destruct (finished (tx t)); [|destruct qrep as [rs|e]]; simpl;
      [..|destruct (newResultsFromSqlRows (current rs)); simpl|];
      repeat split; try done; intros; count_events.
Qed.

(** ** Context helpers and cached lookups *)

(** X18. [WithSync] attaches the synchronisation flag, cleared, to a
    context that has none and returns a context that has one unchanged, so
    that applying it twice is applying it once and a flag that is set
    stays set. It hides neither the deadline nor a transaction attached
    before, and attaching a transaction afterwards does not hide the
    flag. *)
Theorem WithSync_attaches_the_flag_once (ctx : Context) (t : Transaction) :
  is_Some (getSyncFromCtx (WithSync ctx))
  ∧ checkIfSyncNeeded (WithSync ctx) = checkIfSyncNeeded ctx
  ∧ (getSyncFromCtx ctx = None → checkIfSyncNeeded (WithSync ctx) = false)
  ∧ (is_Some (getSyncFromCtx ctx) → WithSync ctx = ctx)
  ∧ WithSync (WithSync ctx) = WithSync ctx
  ∧ txFromCtx (WithSync ctx) = txFromCtx ctx
  ∧ deadline (WithSync ctx) = deadline ctx
  ∧ getSyncFromCtx (WithContext t ctx) = getSyncFromCtx ctx.
Proof.
  assert (Hnew : getSyncFromCtx ctx = None →
                 getSyncFromCtx (WithSync ctx) = Some false
                 ∧ WithSync ctx
                   = WithValue ctx key_transactSync (val_transactSync false)).
  { intros Hn. unfold WithSync. rewrite Hn. split; [|done].
    reflexivity. }
  assert (Hold : ∀ b, getSyncFromCtx ctx = Some b → WithSync ctx = ctx).
  { intros b Hb. unfold WithSync. by rewrite Hb. }
  destruct (getSyncFromCtx ctx) as [b|] eqn:Hsync.
  - rewrite !(Hold b eq_refl). unfold checkIfSyncNeeded. rewrite Hsync.
    repeat split; done || by eexists.
  - destruct (Hnew eq_refl) as [Hflag Heq].
    split; [by eexists|]. unfold checkIfSyncNeeded. rewrite Hflag, Hsync.
    split; [done|]. split; [done|].
    split; [by intros [? ?]|].
    split; [unfold WithSync at 1; by rewrite Hflag|].
    rewrite Heq. repeat split.
    exact Hsync.
Qed.

Lemma names_before_indexes (c : Columns) :
  reachable c → is_Some (indexes c) → is_Some (names c).
Proof.
  induction 1 as [cts|c _ IH|c name _ IH].
  - by intros [? ?].
  - unfold ColumnNames. destruct (names c) eqn:Hn; simpl; [by rewrite Hn|].
    intros _. by eexists.
  - unfold ColumnIndex, ColumnNames.
    destruct (indexes c) as [m|] eqn:Hx.
    + destruct (m !! name); simpl; rewrite Hx; exact IH.
    + destruct (names c) eqn:Hn; destruct (_ !! name); simpl;
        intros _; by eexists.
Qed.

(** X19. On a [Columns] value the package can produce, lookups do not
    disturb one another: after any [ColumnIndex] or [ColumnNames] the
    column types are the same, the names are the same and every name gets
    the answer it would have got before. Once an index lookup has run, the
    value no longer changes. *)
Theorem lookups_do_not_interfere (c : Columns) (n1 n2 : string)
  (Hc : reachable c) :
  let c1 := (ColumnIndex c n1).1 in
  columnTypes c1 = columnTypes c
  ∧ (ColumnNames c1).2 = (ColumnNames c).2
  ∧ (ColumnIndex c1 n2).2 = (ColumnIndex c n2).2
  ∧ (ColumnIndex (ColumnNames c).1 n2).2 = (ColumnIndex c n2).2
  ∧ (ColumnIndex c1 n2).1 = c1
  ∧ (ColumnNames c1).1 = c1.
Proof.
  pose proof (reachable_cached c Hc) as Hcached. cbv zeta.
  destruct (ColumnIndex_cached c n1 Hcached) as (Hc1 & Hct1 & _).
  destruct (ColumnNames_cached c Hcached) as (Hc2 & Hct2 & Hn2).
  destruct (ColumnNames_cached _ Hc1) as (_ & _ & Hn1).
  destruct (ColumnIndex_cached c n2 Hcached) as (_ & _ & Hi).
  destruct (ColumnIndex_cached _ n2 Hc1) as (_ & _ & Hi1).
  destruct (ColumnIndex_cached _ n2 Hc2) as (_ & _ & Hi2).
  split; [done|]. split; [by rewrite Hn1, Hn2, Hct1|].
  split; [by rewrite Hi1, Hi, Hct1|]. split; [by rewrite Hi2, Hi, Hct2|].
  assert (Hfilled : is_Some (indexes (ColumnIndex c n1).1)
                    ∧ is_Some (names (ColumnIndex c n1).1)).
  { pose proof (names_before_indexes c Hc) as Hnb.
    unfold ColumnIndex, ColumnNames.
    destruct (indexes c) as [m|] eqn:Hx.
    - destruct (Hnb ltac:(by eexists)) as [ns Hns].
      destruct (m !! n1); simpl; rewrite Hx, Hns; split; by eexists.
    - destruct (names c) as [ns|] eqn:Hn; destruct (_ !! n1); simpl;
        split; by eexists. }
  destruct Hfilled as [[m Hm] [ns Hns]].
  split.
  - unfold ColumnIndex at 1. rewrite Hm. by destruct (m !! n2).
  - unfold ColumnNames. by rewrite Hns.
Qed.

Lemma lookups_do_not_interfere_witness :
  reachable Sample.cols
  ∧ (ColumnIndex (ColumnIndex Sample.cols "name").1 "id").2
    = (ColumnIndex Sample.cols "id").2.
Proof.
  split; [constructor|].
  exact (proj1 (proj2 (proj2 (lookups_do_not_interfere Sample.cols "name" "id"
                                (reach_new _))))).
Defined.
